(** * localsend-go: the transfer handlers (internal/handlers)

    A shallow embedding of [receive.go] (the responder: [PrepareReceive],
    [ReceiveHandler]) and [send.go] (the initiator:
    [SendFileToOtherDevicePrepare], [uploadFile], [SendFile]), followed by
    the properties of the protocol engine.

    Conventions.
    - A Go [string] is a [string]; a [[]byte] is a [list byte].
    - A Go [error] is its message; [nil] is [None].
    - A Go [map[string]V] is a [gmap string V]; where the code ranges over a
      map, the order chosen by the runtime is an explicit list.
    - Package level variables are the fields of [server]; the file system is
      a finite map from paths to contents; the results of the operating
      system and of the network are inputs of the functions ([recv_env],
      [upload_env], ...). *)

From Stdlib Require Import ZArith Lia Ascii.
From Stdlib.Strings Require Import Byte.
From stdpp Require Import base strings pretty gmap list sorting.

Open Scope Z_scope.

(** ** The Go runtime and standard library, as far as the handlers use them *)
Module Go.

Definition error := string.

(** [int] is 32 bits wide on the arm/6 and arm/7 targets of the Makefile
    and 64 bits wide on the others. *)
Variant int_size := Int32 | Int64.

Definition int_bits (a : int_size) : Z :=
  match a with Int32 => 32 | Int64 => 64 end.

Definition MaxInt (a : int_size) : Z := 2 ^ (int_bits a - 1) - 1.
Definition MinInt (a : int_size) : Z := - 2 ^ (int_bits a - 1).

(** Signed arithmetic wraps around: the result is the representative of
    [z] modulo [2 ^ int_bits] in [MinInt .. MaxInt]. *)
Definition wrap_int (a : int_size) (z : Z) : Z :=
  (z + 2 ^ (int_bits a - 1)) mod 2 ^ int_bits a - 2 ^ (int_bits a - 1).

(** [fmt.Sprintf("%d", z)] *)
Definition fmt_d (z : Z) : string := pretty z.

(** [strings.HasSuffix]:
    [len(s) >= len(suffix) && s[len(s)-len(suffix):] == suffix] *)
Definition HasSuffix (s suffix : string) : bool :=
  (String.length suffix <=? String.length s)%nat &&
  String.eqb
    (String.substring (String.length s - String.length suffix)
                      (String.length suffix) s)
    suffix.

Definition IsPathSeparator (c : ascii) : bool := Ascii.eqb c "/".
Definition is_dot (c : ascii) : bool := Ascii.eqb c ".".

(** [filepath.Ext]: the suffix starting at the last dot of the last
    element of the path, scanning from the end and stopping at a
    separator. *)
Variant ext_scan := ExtFound (e : string) | ExtSeparator | ExtNone.

Fixpoint scan_ext (path : string) : ext_scan :=
  match path with
  | EmptyString => ExtNone
  | String c rest =>
      match scan_ext rest with
      | ExtFound e => ExtFound e
      | ExtSeparator => ExtSeparator
      | ExtNone =>
          if IsPathSeparator c then ExtSeparator
          else if is_dot c then ExtFound (String c rest)
          else ExtNone
      end
  end.

Definition Ext (path : string) : string :=
  match scan_ext path with ExtFound e => e | _ => "" end.

(** [filepath.Clean], on a slash separated path without volume name.  The
    output buffer [out] is kept reversed; [dotdot] is the length of the
    prefix of [out] that [..] must not remove. *)
Fixpoint clean_backtrack (dotdot : nat) (out : list ascii) : list ascii :=
  match out with
  | [] => []
  | x :: out' =>
      if (dotdot <? length out')%nat && negb (IsPathSeparator x)
      then clean_backtrack dotdot out'
      else out'
  end.

Definition at_element_end (rest : list ascii) : bool :=
  match rest with [] => true | c :: _ => IsPathSeparator c end.

Fixpoint clean_copy (path out : list ascii) : list ascii * list ascii :=
  match path with
  | [] => ([], out)
  | c :: rest =>
      if IsPathSeparator c then (path, out) else clean_copy rest (c :: out)
  end.

Fixpoint clean_loop (fuel : nat) (rooted : bool) (path out : list ascii)
    (dotdot : nat) : list ascii :=
  match fuel with
  | O => out
  | S fuel =>
      match path with
      | [] => out
      | c :: rest =>
          if IsPathSeparator c then clean_loop fuel rooted rest out dotdot
          else if is_dot c && at_element_end rest
          then clean_loop fuel rooted rest out dotdot
          else if is_dot c &&
                  match rest with
                  | c' :: rest' => is_dot c' && at_element_end rest'
                  | [] => false
                  end
          then
            let rest' := tail rest in
            if (dotdot <? length out)%nat
            then clean_loop fuel rooted rest' (clean_backtrack dotdot out) dotdot
            else if negb rooted
            then
              let out1 := if (0 <? length out)%nat then "/"%char :: out else out in
              let out2 := "."%char :: "."%char :: out1 in
              clean_loop fuel rooted rest' out2 (length out2)
            else clean_loop fuel rooted rest' out dotdot
          else
            let out1 :=
              if (rooted && negb (length out =? 1)%nat) ||
                 (negb rooted && negb (length out =? 0)%nat)
              then "/"%char :: out else out in
            let '(rest', out2) := clean_copy path out1 in
            clean_loop fuel rooted rest' out2 dotdot
      end
  end.

Definition Clean (path : string) : string :=
  match String.list_ascii_of_string path with
  | [] => "."
  | (c :: _) as p =>
      let rooted := IsPathSeparator c in
      let out :=
        if rooted
        then clean_loop (S (length p)) rooted (tail p) ["/"%char] 1
        else clean_loop (S (length p)) rooted p [] 0 in
      match out with
      | [] => "."
      | _ => String.string_of_list_ascii (rev out)
      end
  end.

(** [filepath.Join] of two elements: the elements from the first non-empty
    one on are joined by a separator and the result is cleaned; with no
    non-empty element the result is the empty string. *)
Definition Join (a b : string) : string :=
  match a, b with
  | EmptyString, EmptyString => ""
  | EmptyString, _ => Clean b
  | _, _ => Clean (a +:+ "/" +:+ b)
  end.

End Go.

(** ** internal/models: the wire records, as the handlers use them *)
Module Models.

(** Modelled from the spec: [models.Info] is declared in internal/models,
    which is not among the sources; the fields are those that
    [SendFileToOtherDevicePrepare] fills in (DeviceInfo in the data model
    of the specification). *)
Record Info := {
  Alias : string;
  Version : string;
  DeviceModel : string;
  DeviceType : string;
  Fingerprint : string;
  Port : Z;
  Protocol : string;
  Download : bool
}.

(** Modelled from the spec: [models.FileInfo], the FileMetadata of the
    data model: id, file name, size in bytes, extension, content hash and
    an optional preview, a small inline byte payload. *)
Record FileInfo := {
  ID : string;
  FileName : string;
  Size : Z;
  FileType : string;
  SHA256 : string;
  Preview : list byte
}.

(** Modelled from the spec: [models.PrepareReceiveRequest], the Manifest
    of the data model.  [Files] is a Go map; the request carries it as the
    list of its entries in the order in which [range] visits them, which
    the runtime chooses; a list decoded from a JSON object has no repeated
    key. *)
Record PrepareReceiveRequest := {
  Req_Info : Info;
  Req_Files : list (string * FileInfo)
}.

(** Modelled from the spec: [models.PrepareReceiveResponse], the
    PrepareResponse of the data model. *)
Record PrepareReceiveResponse := {
  SessionID : string;
  Files : gmap string string
}.

End Models.

(** ** net/http: what a handler leaves in its [ResponseWriter] *)
Module Http.
Import Models.

Definition StatusOK : Z := 200.
Definition StatusBadRequest : Z := 400.
Definition StatusInternalServerError : Z := 500.

Variant body :=
  | NoBody
  | Text (s : string)
  | Json (r : PrepareReceiveResponse).

(** [status] is the status code the handler has written: the argument of
    its [WriteHeader] call, or 200 when it writes a body without that call;
    [None] when it returns without having written anything. *)
Record response := {
  status : option Z;
  content_type : option string;
  payload : body
}.

Definition untouched : response :=
  {| status := None; content_type := None; payload := NoBody |}.

Definition newline : string := String (ascii_of_nat 10) "".

(** [http.Error(w, msg, code)] *)
Definition Error (msg : string) (code : Z) : response :=
  {| status := Some code;
     content_type := Some "text/plain; charset=utf-8";
     payload := Text (msg +:+ newline) |}.

(** [w.WriteHeader(code)] on a fresh writer *)
Definition WriteHeader (code : Z) : response :=
  {| status := Some code; content_type := None; payload := NoBody |}.

End Http.

(** ** receive.go *)
Module Receive.
Import Go Models Http.

(** The package level variables [sessionIDCounter] and [fileNames]
    ([sessionMutex] appears in [Sessions] below). *)
Record server := {
  sessionIDCounter : Z;
  fileNames : gmap string string
}.

Definition initial : server :=
  {| sessionIDCounter := 0; fileNames := ∅ |}.

(** The system clipboard as the sequence of payloads written to it,
    oldest first. *)
Abbreviation clipboard := (list (list byte)).

(** Modelled from the spec: [clipboard.WriteToClipBoard] is declared in
    internal/utils/clipboard, which is not among the sources; given a byte
    payload, it writes it to the system clipboard. *)
Definition WriteToClipBoard (payload : list byte) (clip : clipboard)
    : clipboard :=
  clip ++ [payload].

(** What the loop over [req.Files] has built so far. *)
Record prepare_acc := {
  acc_files : gmap string string;
  acc_names : gmap string string;
  acc_clip : clipboard
}.

(** One iteration of [for fileID, fileInfo := range req.Files]. *)
Definition prepare_file (acc : prepare_acc) (kv : string * FileInfo)
    : prepare_acc :=
  let fileID := kv.1 in
  let fileInfo := kv.2 in
  let token := "token-" +:+ fileID in
  {| acc_files := <[fileID := token]> (acc_files acc);
     acc_names := <[fileID := FileName fileInfo]> (acc_names acc);
     acc_clip :=
       if HasSuffix (FileName fileInfo) ".txt"
       then WriteToClipBoard (Preview fileInfo) (acc_clip acc)
       else acc_clip acc |}.

Definition prepare_files (names : gmap string string) (clip : clipboard)
    (files : list (string * FileInfo)) : prepare_acc :=
  fold_left prepare_file files
    {| acc_files := ∅; acc_names := names; acc_clip := clip |}.

(** The critical section of [PrepareReceive]. *)
Definition next_counter (a : int_size) (counter : Z) : Z :=
  wrap_int a (counter + 1).

Definition session_name (counter : Z) : string :=
  "session-" +:+ fmt_d counter.

(** [PrepareReceive]; [req] is [None] when the body does not decode. *)
Definition PrepareReceive (a : int_size) (st : server) (clip : clipboard)
    (req : option PrepareReceiveRequest) : server * clipboard * response :=
  match req with
  | None => (st, clip, Error "Invalid request body" StatusBadRequest)
  | Some req =>
      let counter := next_counter a (sessionIDCounter st) in
      let sessionID := session_name counter in
      let acc := prepare_files (fileNames st) clip (Req_Files req) in
      let resp := {| SessionID := sessionID; Files := acc_files acc |} in
      ({| sessionIDCounter := counter; fileNames := acc_names acc |},
       acc_clip acc,
       {| status := Some StatusOK;
          content_type := Some "application/json";
          payload := Json resp |})
  end.

(** *** The upload endpoint *)

(** The query parameters are the results of [r.URL.Query().Get], the
    empty string for a missing one.  [Body] is the sequence of results of
    [r.Body.Read]; past its end [Read] returns [0, io.EOF]. *)
Variant read_error := ReadOk | ReadEOF | ReadFailed (e : error).

Record read_result := {
  rd_data : list byte;
  rd_err : read_error
}.

Record upload_request := {
  sessionId : string;
  fileId : string;
  token : string;
  ContentLength : Z;
  Body : list read_result
}.

(** The answers of the operating system: of [os.MkdirAll], of
    [os.Create], and of the [i]-th [file.Write], which on failure reports
    how many bytes it did write. *)
Record recv_env := {
  mkdirall_err : option error;
  create_err : option error;
  write_err : nat -> option (nat * error)
}.

(** Regular files by path. *)
Abbreviation filesystem := (gmap string (list byte)).

Definition file_append (path : string) (data : list byte)
    (fs : filesystem) : filesystem :=
  match fs !! path with
  | Some old => <[path := old ++ data]> fs
  | None => fs
  end.

(** The goroutine: the chunk loop, from its [i]-th iteration on.  The
    result is the file system it leaves and the value it sends on
    [done]. *)
Fixpoint chunk_loop (env : recv_env) (path : string) (i : nat)
    (reads : list read_result) (fs : filesystem)
    : filesystem * option error :=
  match reads with
  | [] => (fs, None)
  | r :: rest =>
      match rd_err r with
      | ReadFailed e => (fs, Some ("Failed to read file: " +:+ e))
      | _ =>
          match rd_data r with
          | [] => (fs, None)
          | data =>
              match write_err env i with
              | Some (n, e) =>
                  (file_append path (take n data) fs,
                   Some ("Failed to write file: " +:+ e))
              | None =>
                  chunk_loop env path (S i) rest (file_append path data fs)
              end
          end
      end
  end.

(** Which case the [select] of the handler takes: the value received from
    [done], or [ctx.Done()] at a moment when the goroutine has gone
    through [k] of its iterations. *)
Variant schedule := TakeDone | TakeCtxDone (k : nat).

(** The chunks the goroutine has consumed when the handler looks. *)
Definition consumed (s : schedule) (reads : list read_result)
    : list read_result :=
  match s with
  | TakeDone => reads
  | TakeCtxDone k => take k reads
  end.

(** [os.Remove] of a regular file, as on the POSIX targets: the name is
    gone afterwards, also while the file is still open. *)
Definition Remove (path : string) (fs : filesystem) : filesystem :=
  delete path fs.

(** [os.Create]: the file exists and is empty afterwards, whatever was
    there before. *)
Definition Create (path : string) (fs : filesystem) : filesystem :=
  <[path := []]> fs.

Definition ReceiveHandler (env : recv_env) (s : schedule) (st : server)
    (fs : filesystem) (r : upload_request) : filesystem * response :=
  if bool_decide (sessionId r = "") || bool_decide (fileId r = "") ||
     bool_decide (token r = "")
  then (fs, Error "Missing parameters" StatusBadRequest)
  else
    match fileNames st !! fileId r with
    | None => (fs, Error "Invalid file ID" StatusBadRequest)
    | Some fileName =>
        let filePath := Join "uploads" fileName in
        match mkdirall_err env with
        | Some _ =>
            (fs, Error "Failed to create directory" StatusInternalServerError)
        | None =>
            match create_err env with
            | Some _ =>
                (fs, Error "Failed to create file" StatusInternalServerError)
            | None =>
                let fs0 := Create filePath fs in
                let '(fs1, done) :=
                  chunk_loop env filePath 0 (consumed s (Body r)) fs0 in
                match s with
                | TakeDone =>
                    match done with
                    | Some err =>
                        (Remove filePath fs1,
                         Error err StatusInternalServerError)
                    | None => (fs1, WriteHeader StatusOK)
                    end
                | TakeCtxDone _ => (Remove filePath fs1, untouched)
                end
            end
        end
    end.

End Receive.

(** ** Concurrent handshakes: the critical section of [PrepareReceive]

  Every request runs [PrepareReceive] in a goroutine of its own.  A call
  is followed through the four statements between [sessionMutex.Lock()]
  and [sessionMutex.Unlock()]; the calls of a process run take their
  steps in any order the scheduler likes. *)
Module Sessions.
Import Go Receive.

Variant call :=
  | AtLock                        (* before [sessionMutex.Lock()] *)
  | AtIncrement                   (* before [sessionIDCounter++] *)
  | AtSprintf                     (* before [sessionID := fmt.Sprintf(...)] *)
  | AtUnlock (sessionID : string) (* before [sessionMutex.Unlock()] *)
  | Past (sessionID : string).    (* after the critical section *)

(** [issued] is a history variable: the counter values that [Sprintf] has
    read, oldest first. *)
Record config := {
  counter : Z;
  locked : bool;
  calls : list call;
  issued : list Z
}.

Definition start (n : nat) : config :=
  {| counter := sessionIDCounter initial;
     locked := false;
     calls := replicate n AtLock;
     issued := [] |}.

Inductive step (a : int_size) (c : config) : config -> Prop :=
  | step_lock i :
      calls c !! i = Some AtLock ->
      locked c = false ->
      step a c {| counter := counter c;
                  locked := true;
                  calls := <[i := AtIncrement]> (calls c);
                  issued := issued c |}
  | step_increment i :
      calls c !! i = Some AtIncrement ->
      step a c {| counter := next_counter a (counter c);
                  locked := locked c;
                  calls := <[i := AtSprintf]> (calls c);
                  issued := issued c |}
  | step_sprintf i :
      calls c !! i = Some AtSprintf ->
      step a c {| counter := counter c;
                  locked := locked c;
                  calls := <[i := AtUnlock (session_name (counter c))]> (calls c);
                  issued := issued c ++ [counter c] |}
  | step_unlock i sessionID :
      calls c !! i = Some (AtUnlock sessionID) ->
      step a c {| counter := counter c;
                  locked := false;
                  calls := <[i := Past sessionID]> (calls c);
                  issued := issued c |}.

Definition reachable (a : int_size) (n : nat) (c : config) : Prop :=
  rtc (step a) (start n) c.

(** The session id a call has in its local variable. *)
Definition holds (p : call) : option string :=
  match p with
  | AtUnlock s | Past s => Some s
  | _ => None
  end.

Definition in_critical_section (p : call) : bool :=
  match p with
  | AtIncrement | AtSprintf | AtUnlock _ => true
  | _ => false
  end.

Definition incremented (p : call) : bool :=
  match p with AtSprintf => true | _ => false end.

Fixpoint count_calls (f : call -> bool) (l : list call) : nat :=
  match l with
  | [] => 0
  | p :: l => ((if f p then 1 else 0) + count_calls f l)%nat
  end.

(** The counter of the [k]-th call of a run in which the handshakes
    follow one another, each on a request that decodes. *)
Definition after_prepare (a : int_size) (req : Models.PrepareReceiveRequest)
    (st : server) : server :=
  (PrepareReceive a st [] (Some req)).1.1.

Definition nth_session_counter (a : int_size)
    (req : Models.PrepareReceiveRequest) (k : N) : Z :=
  sessionIDCounter (N.iter k (after_prepare a req) initial).

End Sessions.

(** ** send.go *)
Module Send.
Import Go Models.

(** One call of the function given to [filepath.Walk]: the path, what
    [info] says and the error handed in.  A walk is the list of its calls
    in order (lexical, directories before their entries). *)
Record visit := {
  v_path : string;
  v_name : string;  (* [info.Name()], the base name *)
  v_isDir : bool;
  v_size : Z;
  v_err : option error
}.

(** [filepath.Walk]: the first error returned by [fn] ends the walk and is
    its result.  ([fn] never returns [SkipDir] here.) *)
Fixpoint Walk {S : Type} (fn : S -> visit -> S * option error)
    (vs : list visit) (s : S) : S * option error :=
  match vs with
  | [] => (s, None)
  | v :: rest =>
      match fn s v with
      | (s', Some e) => (s', Some e)
      | (s', None) => Walk fn rest s'
      end
  end.

(** *** The manifest builder *)

(** The function walked by [SendFileToOtherDevicePrepare]; [sha256] is
    [sha256.CalculateSHA256]. *)
Definition manifest_visit (sha256 : string -> error + string)
    (files : gmap string FileInfo) (v : visit)
    : gmap string FileInfo * option error :=
  match v_err v with
  | Some e => (files, Some e)
  | None =>
      if v_isDir v then (files, None)
      else
        match sha256 (v_path v) with
        | inl e => (files, Some ("error calculating SHA256 hash: " +:+ e))
        | inr sha256Hash =>
            let fileMetadata :=
              {| ID := v_name v;
                 FileName := v_name v;
                 Size := v_size v;
                 FileType := Ext (v_path v);
                 SHA256 := sha256Hash;
                 Preview := [] |} in
            (<[ID fileMetadata := fileMetadata]> files, None)
        end
  end.

Definition build_manifest (sha256 : string -> error + string)
    (vs : list visit) : error + gmap string FileInfo :=
  match Walk (manifest_visit sha256) vs ∅ with
  | (_, Some e) => inl ("error walking the path: " +:+ e)
  | (files, None) => inr files
  end.

(** *** The handshake client *)

(** What came back from the receiver: the status code and what decoding
    the body as a [PrepareReceiveResponse] gives. *)
Record reply := {
  StatusCode : Z;
  decoded : error + PrepareReceiveResponse
}.

Record prepare_env := {
  sha256_of : string -> error + string;
  marshal_err : option error;
  post : string -> PrepareReceiveRequest -> error + reply
}.

(** A Go result, a pointer (possibly [nil]) and an [error]. *)
Definition result (T : Type) : Type := option T * option error.

(** The [// Check response] block and the decoding after it. *)
Definition check_response (resp : reply) : result PrepareReceiveResponse :=
  if negb (StatusCode resp =? 200)
  then
    if StatusCode resp =? 204
    then (None, Some "finished (No file transfer needed)")
    else if StatusCode resp =? 400 then (None, Some "invalid body")
    else if StatusCode resp =? 403 then (None, Some "rejected")
    else if StatusCode resp =? 500
    then (None, Some "unknown error by receiver")
    else (None,
          Some ("failed to send metadata: received status code "
                +:+ fmt_d (StatusCode resp)))
  else
    match decoded resp with
    | inl e => (None, Some ("error decoding response JSON: " +:+ e))
    | inr prepareReceiveResponse => (Some prepareReceiveResponse, None)
    end.

Definition SendFileToOtherDevicePrepare (env : prepare_env) (device : Info)
    (vs : list visit) (ip : string) : result PrepareReceiveResponse :=
  match build_manifest (sha256_of env) vs with
  | inl e => (None, Some e)
  | inr files =>
      let request :=
        {| Req_Info := device; Req_Files := map_to_list files |} in
      match marshal_err env with
      | Some e => (None, Some ("error encoding request to JSON: " +:+ e))
      | None =>
          let url :=
            "https://" +:+ ip +:+ ":53317/api/localsend/v2/prepare-upload" in
          match post env url request with
          | inl e => (None, Some ("error sending POST request: " +:+ e))
          | inr resp => check_response resp
          end
      end
  end.

(** *** The streaming uploader *)

(** What [uploadFile] meets for one file: the answers of [os.Open], of
    [file.Stat] and of [http.NewRequestWithContext], the result of
    [client.Do] (an error, or the status code of the response), and the
    state of the two channels when the [select] looks at them. *)
Record upload_env := {
  open_err : option error;
  stat_err : option error;
  newreq_err : option error;
  do_result : error + Z;
  ctx_done : bool;           (* [ctx.Done()] is ready *)
  copy_err : option error;   (* the error waiting in [uploadErr] *)
  pick_ctx : bool            (* the case taken when both are ready *)
}.

(** A request handed to [client.Do]. *)
Record sent := {
  sent_url : string;
  sent_path : string
}.

Definition upload_status_error (code : Z) : error :=
  if code =? 400 then "missing parameters"
  else if code =? 403 then "invalid token or IP address"
  else if code =? 409 then "blocked by another session"
  else if code =? 500 then "unknown error by receiver"
  else "file upload failed: received status code " +:+ fmt_d code.

(** [uploadFile]: the requests it made and its result. *)
Definition uploadFile (env : upload_env)
    (ip sessionId fileId token filePath : string)
    : list sent * option error :=
  match open_err env with
  | Some e => ([], Some ("error opening file: " +:+ e))
  | None =>
  match stat_err env with
  | Some e => ([], Some ("error getting file info: " +:+ e))
  | None =>
  let uploadURL :=
    "https://" +:+ ip +:+ ":53317/api/localsend/v2/upload?sessionId="
    +:+ sessionId +:+ "&fileId=" +:+ fileId +:+ "&token=" +:+ token in
  match newreq_err env with
  | Some e => ([], Some ("error creating POST request: " +:+ e))
  | None =>
  let req := [{| sent_url := uploadURL; sent_path := filePath |}] in
  if ctx_done env && (pick_ctx env || bool_decide (copy_err env = None))
  then (req, Some "Transfer cancelled")
  else
    match copy_err env with
    | Some e => (req, Some ("Upload error: " +:+ e))
    | None =>
        match do_result env with
        | inl e => (req, Some ("error sending file upload request: " +:+ e))
        | inr code =>
            if negb (code =? 200)
            then (req, Some (upload_status_error code))
            else (req, None)
        end
    end
  end end end.

(** The function walked by [SendFile]; the state is the list of requests
    made so far, [net] tells what the upload of a path meets. *)
Definition upload_visit (net : string -> upload_env) (ip : string)
    (response : PrepareReceiveResponse) (log : list sent) (v : visit)
    : list sent * option error :=
  match v_err v with
  | Some e => (log, Some e)
  | None =>
      if v_isDir v then (log, None)
      else
        let fileId := v_name v in
        match Files response !! fileId with
        | None => (log, Some ("token not found for file: " +:+ fileId))
        | Some token =>
            let '(reqs, err) :=
              uploadFile (net (v_path v)) ip (SessionID response)
                         fileId token (v_path v) in
            match err with
            | Some e => (log ++ reqs, Some ("error uploading file: " +:+ e))
            | None => (log ++ reqs, None)
            end
        end
  end.

Definition upload_walk (net : string -> upload_env) (ip : string)
    (response : PrepareReceiveResponse) (vs : list visit)
    : list sent * option error :=
  Walk (upload_visit net ip response) vs [].

Record send_env := {
  select_device : error + string;   (* [tui.SelectDevice] *)
  prepare : prepare_env;
  device : Info;                    (* [shared.Message] *)
  network : string -> upload_env
}.

(** [SendFile]; [vs1] is the walk of the manifest builder and [vs2] the
    walk of the upload loop over the same path.  The registration of the
    cancel handler ([RegisterCancelHandler], not among the sources) acts on
    [ctx] only, which the uploads see as [ctx_done].  The handshake never
    returns [nil, nil] ([prepare_result_cases] below), so the third case
    is never taken. *)
Definition SendFile (env : send_env) (vs1 vs2 : list visit)
    : list sent * option error :=
  match select_device env with
  | inl e => ([], Some e)
  | inr ip =>
      match SendFileToOtherDevicePrepare (prepare env) (device env) vs1 ip with
      | (_, Some e) => ([], Some e)
      | (None, None) => ([], None)
      | (Some response, None) =>
          match upload_walk (network env) ip response vs2 with
          | (log, Some e) => (log, Some ("error walking the path: " +:+ e))
          | (log, None) => (log, None)
          end
      end
  end.

End Send.

(** ** send.go: the browser upload endpoint *)
Module Upload.
Import Go Http Receive.

(** One entry of [r.MultipartForm.File["file"]]: its [Filename], the bytes
    that reading the opened part gives, and what the handler meets while
    saving it: the answers of [fileHeader.Open], of [os.MkdirAll] on the
    directory of the destination, of [os.Create], and of [io.Copy], which
    on failure has copied a number of bytes. *)
Record part := {
  Filename : string;
  part_data : list byte;
  part_open_err : option error;
  part_mkdir_err : option error;
  part_create_err : option error;
  part_copy_err : option (nat * error)
}.

(** The form as [r.ParseMultipartForm] leaves it: the value of
    [directoryName] (empty when absent) and the parts named [file]. *)
Record form := {
  directoryName : string;
  form_files : list part
}.

Definition StatusCreated : Z := 201.

(** The body of [for _, fileHeader := range files]: the file system left,
    and the response of the failure that ends the handler, if any. *)
Fixpoint save_parts (finalUploadDir : string) (files : list part)
    (fs : filesystem) : filesystem * option response :=
  match files with
  | [] => (fs, None)
  | fileHeader :: rest =>
      match part_open_err fileHeader with
      | Some e =>
          (fs, Some (Error ("Failed to open file: " +:+ e)
                           StatusInternalServerError))
      | None =>
          let destPath := Join finalUploadDir (Filename fileHeader) in
          match part_mkdir_err fileHeader with
          | Some e =>
              (fs, Some (Error ("Failed to create directory: " +:+ e)
                               StatusInternalServerError))
          | None =>
              match part_create_err fileHeader with
              | Some e =>
                  (fs, Some (Error ("Failed to create file: " +:+ e)
                                   StatusInternalServerError))
              | None =>
                  let fs0 := Create destPath fs in
                  match part_copy_err fileHeader with
                  | Some (n, e) =>
                      (file_append destPath (take n (part_data fileHeader)) fs0,
                       Some (Error ("Failed to save file: " +:+ e)
                                   StatusInternalServerError))
                  | None =>
                      save_parts finalUploadDir rest
                        (file_append destPath (part_data fileHeader) fs0)
                  end
              end
          end
      end
  end.

(** [NormalSendHandler]; [parsed] is the outcome of
    [r.ParseMultipartForm(10 << 20)] and [mkdir_err] the answer of
    [os.MkdirAll(finalUploadDir, os.ModePerm)]. *)
Definition NormalSendHandler (parsed : error + form)
    (mkdir_err : option error) (fs : filesystem) : filesystem * response :=
  match parsed with
  | inl e => (fs, Error ("Failed to parse form: " +:+ e) StatusBadRequest)
  | inr f =>
      let uploadedDirName := directoryName f in
      let files := form_files f in
      if (length files =? 0)%nat
      then (fs, Error "No files uploaded" StatusBadRequest)
      else
        let uploadDir := "./uploads" in
        let finalUploadDir :=
          if bool_decide (uploadedDirName = "") then uploadDir
          else Join uploadDir uploadedDirName in
        match mkdir_err with
        | Some e =>
            (fs, Error ("Failed to create upload directory: " +:+ e)
                       StatusInternalServerError)
        | None =>
            match save_parts finalUploadDir files fs with
            | (fs', Some failure) => (fs', failure)
            | (fs', None) =>
                (fs',
                 {| status := Some StatusCreated;
                    content_type := None;
                    payload :=
                      Text ("Files uploaded successfully, total "
                            +:+ fmt_d (Z.of_nat (length files))
                            +:+ " files, uploaded to directory: "
                            +:+ finalUploadDir +:+ newline) |})
            end
        end
  end.

End Upload.

(** * The vocabulary of the properties, and sample data *)
Section vocabulary.
Import Go Models Http Receive Sessions Send.

(** The request passes the two checks of the handler and the operating
    system lets it create the destination. *)
Definition accepted (env : recv_env) (st : server) (r : upload_request)
    (fileName : string) : Prop :=
  sessionId r ≠ "" ∧ fileId r ≠ "" ∧ token r ≠ "" ∧
  fileNames st !! fileId r = Some fileName ∧
  mkdirall_err env = None ∧ create_err env = None.

(** The request fails one of the two checks. *)
Definition refused (st : server) (r : upload_request) : Prop :=
  sessionId r = "" ∨ fileId r = "" ∨ token r = "" ∨
  fileNames st !! fileId r = None.

(** The bytes of the chunks up to the first empty read. *)
Fixpoint delivered (reads : list read_result) : list byte :=
  match reads with
  | [] => []
  | r :: rest =>
      match rd_data r with
      | [] => []
      | data => data ++ delivered rest
      end
  end.

(** The server after a sequence of handshakes. *)
Definition after_handshakes (a : int_size)
    (reqs : list PrepareReceiveRequest) (st : server) : server :=
  fold_left (λ st req, (PrepareReceive a st [] (Some req)).1.1) reqs st.

Definition is_txt (kv : string * FileInfo) : bool :=
  HasSuffix (FileName kv.2) ".txt".

(** Sample data: the handshake for one file [a.txt], then an upload of it
    in two chunks. *)
Definition info_a : FileInfo :=
  {| ID := "a.txt"; FileName := "a.txt"; Size := 3; FileType := ".txt";
     SHA256 := "ba7816bf"; Preview := [] |}.

Definition sender : Info :=
  {| Alias := "laptop"; Version := "2.0"; DeviceModel := "linux";
     DeviceType := "headless"; Fingerprint := "f0"; Port := 53317;
     Protocol := "https"; Download := false |}.

Definition manifest_a : PrepareReceiveRequest :=
  {| Req_Info := sender; Req_Files := [("a.txt", info_a)] |}.

Definition handshake_a : server * clipboard * response :=
  PrepareReceive Int64 initial [] (Some manifest_a).

Definition server_a : server := handshake_a.1.1.

Definition os_ok : recv_env :=
  {| mkdirall_err := None; create_err := None; write_err := λ _, None |}.

Definition two_chunks : list read_result :=
  [ {| rd_data := ["a"%byte; "b"%byte]; rd_err := ReadOk |};
    {| rd_data := ["c"%byte]; rd_err := ReadEOF |} ].

Definition upload_a (session tok : string) (body : list read_result)
    : upload_request :=
  {| sessionId := session; fileId := "a.txt"; token := tok;
     ContentLength := 3; Body := body |}.


Definition earlier_transfer : filesystem :=
  {[ "uploads/a.txt" := ["o"; "l"; "d"]%byte ]}.

Definition empty_note : FileInfo :=
  {| ID := "note.txt"; FileName := "note.txt"; Size := 0;
     FileType := ".txt"; SHA256 := "e3b0c442"; Preview := [] |}.

Definition manifest_empty_note : PrepareReceiveRequest :=
  {| Req_Info := sender; Req_Files := [("note.txt", empty_note)] |}.

(** A Go result is a failure when its error is not [nil]. *)
Definition failed {T : Type} (r : result T) : Prop := r.2 ≠ None.

Definition no_content : reply :=
  {| StatusCode := 204; decoded := inl "EOF" |}.

Definition receiver_says_204 : send_env :=
  {| select_device := inr "192.168.1.20";
     prepare := {| sha256_of := λ _, inr "00";
                   marshal_err := None;
                   post := λ _ _, inr no_content |};
     device := sender;
     network := λ _,
       {| open_err := None; stat_err := None; newreq_err := None;
          do_result := inr 200; ctx_done := false; copy_err := None;
          pick_ctx := false |} |}.

(** The entry the manifest builder makes for a file. *)
Definition metadata (v : visit) (sha256Hash : string) : FileInfo :=
  {| ID := v_name v; FileName := v_name v; Size := v_size v;
     FileType := Ext (v_path v); SHA256 := sha256Hash; Preview := [] |}.

(** A visit that puts an entry into the manifest. *)
Definition recorded (sha256 : string -> error + string) (v : visit)
    (m : FileInfo) : Prop :=
  v_err v = None ∧ v_isDir v = false ∧
  ∃ h, sha256 (v_path v) = inr h ∧ m = metadata v h.

Definition sha_of_path (p : string) : error + string :=
  if String.eqb p "x/a.txt" then inr "aaaa"
  else if String.eqb p "y/a.txt" then inr "bbbb"
  else inl "no such file".

Definition colliding_walk : list visit :=
  [ {| v_path := "x"; v_name := "x"; v_isDir := true; v_size := 4096;
       v_err := None |};
    {| v_path := "x/a.txt"; v_name := "a.txt"; v_isDir := false;
       v_size := 10; v_err := None |};
    {| v_path := "y"; v_name := "y"; v_isDir := true; v_size := 4096;
       v_err := None |};
    {| v_path := "y/a.txt"; v_name := "a.txt"; v_isDir := false;
       v_size := 20; v_err := None |} ].

Definition colliding_manifest : gmap string FileInfo :=
  {[ "a.txt" := {| ID := "a.txt"; FileName := "a.txt"; Size := 20;
                   FileType := ".txt"; SHA256 := "bbbb"; Preview := [] |} ]}.

Definition is_file (v : visit) : bool := negb (v_isDir v).

(** A batch of three files; the cancellation signal is up when the upload
    of the second returns. *)
Definition batch_response : PrepareReceiveResponse :=
  {| SessionID := "session-1";
     Files := {[ "a.txt" := "token-a.txt"; "b.txt" := "token-b.txt";
                        "c.txt" := "token-c.txt" ]} |}.

Definition batch_walk_head : list visit :=
  [ {| v_path := "d"; v_name := "d"; v_isDir := true;
       v_size := 4096; v_err := None |};
    {| v_path := "d/a.txt"; v_name := "a.txt";
       v_isDir := false; v_size := 3; v_err := None |} ].

Definition batch_second : visit :=
  {| v_path := "d/b.txt"; v_name := "b.txt"; v_isDir := false;
     v_size := 5; v_err := None |}.

Definition batch_walk_tail : list visit :=
  [ {| v_path := "d/c.txt"; v_name := "c.txt";
       v_isDir := false; v_size := 7; v_err := None |} ].

Definition cancelled_during_second : send_env :=
  {| select_device := inr "192.168.1.20";
     prepare :=
       {| sha256_of := λ _, inr "00";
          marshal_err := None;
          post := λ _ _,
            inr {| StatusCode := 200;
                   decoded := inr batch_response |} |};
     device := sender;
     network := λ path,
       {| open_err := None; stat_err := None;
          newreq_err := None;
          do_result := inr 200;
          ctx_done := String.eqb path "d/b.txt";
          copy_err := None;
          pick_ctx := false |} |}.

Definition request_for (name : string) : sent :=
  {| sent_url :=
       "https://192.168.1.20:53317/api/localsend/v2/upload?sessionId=session-1&fileId="
       +:+ name +:+ "&token=token-" +:+ name;
     sent_path := "d/" +:+ name |}.

(** What holds of every configuration of a run of [n] calls on a machine
    whose [int] is [a]. *)
Record invariant (a : int_size) (n : nat) (c : config) : Prop := {
  inv_calls : length (calls c) = n;
  inv_mutex :
    count_calls in_critical_section (calls c)
      = if locked c then 1%nat else 0%nat;
  inv_counter :
    counter c
      = wrap_int a (Z.of_nat (length (issued c)
                              + count_calls incremented (calls c)));
  inv_issued :
    issued c = (λ k, wrap_int a (Z.of_nat k)) <$> seq 1 (length (issued c));
  inv_holds : omap holds (calls c) ≡ₚ session_name <$> issued c
}.

(** Two concurrent handshakes: the second to arrive takes the lock first. *)
Definition two_handshakes_done : config :=
  {| counter := 2; locked := false;
     calls := [Past "session-2"; Past "session-1"];
     issued := [1; 2] |}.

(** A file name that is one path element: not empty, not [.] or [..], and
    without a separator. *)
Definition plain_name (name : string) : Prop :=
  name ≠ "" ∧ name ≠ "." ∧ name ≠ ".." ∧
  Forall (λ c, IsPathSeparator c = false) (String.list_ascii_of_string name).

(** A chunk of the body that the loop writes and goes on from: some bytes,
    read without a failure. *)
Definition good_chunk (r : read_result) : Prop :=
  rd_data r ≠ [] ∧ ∀ e, rd_err r ≠ ReadFailed e.

(** The operating system lets the upload endpoint do all it asks for. *)
Definition os_obliging (env : recv_env) : Prop :=
  mkdirall_err env = None ∧ create_err env = None ∧
  ∀ i, write_err env i = None.

(** The server after a sequence of handshake requests, some of which may
    not decode. *)
Definition after_requests (a : int_size)
    (reqs : list (option PrepareReceiveRequest)) (st : server) : server :=
  fold_left (λ st req, (PrepareReceive a st [] req).1.1) reqs st.

(** A visit that the manifest builder gets through. *)
Definition visit_ok (sha256 : string -> error + string) (v : visit) : Prop :=
  v_err v = None ∧ (v_isDir v = false -> ∃ h, sha256 (v_path v) = inr h).

(** The names of the regular files of a walk, in its order. *)
Definition file_names (vs : list visit) : list string :=
  v_name <$> List.filter is_file vs.


(** A part of a multipart form that the browser endpoint saves without a
    failure. *)
Definition part_ok (f : Upload.part) : Prop :=
  Upload.part_open_err f = None ∧ Upload.part_mkdir_err f = None ∧
  Upload.part_create_err f = None ∧ Upload.part_copy_err f = None.

(** The directory the browser endpoint saves into. *)
Definition upload_dir (f : Upload.form) : string :=
  if bool_decide (Upload.directoryName f = "") then "./uploads"
  else Join "./uploads" (Upload.directoryName f).

(** A call that has not left the critical section for good. *)
Definition unfinished (p : call) : bool :=
  match p with Past _ => false | _ => true end.



(** Where the browser endpoint saves a part. *)
Definition part_path (dir : string) (f : Upload.part) : string :=
  Join dir (Upload.Filename f).

Definition calm_network : send_env :=
  {| select_device := inr "192.168.1.20";
     prepare :=
       {| sha256_of := λ _, inr "00";
          marshal_err := None;
          post := λ _ _,
            inr {| StatusCode := 200; decoded := inr batch_response |} |};
     device := sender;
     network := λ _,
       {| open_err := None; stat_err := None; newreq_err := None;
          do_result := inr 200; ctx_done := false; copy_err := None;
          pick_ctx := false |} |}.

(** Parts of a browser upload: one that is saved without a failure, and
    one whose copy breaks off after two bytes. *)
Definition part_saved (name : string) (data : list byte) : Upload.part :=
  {| Upload.Filename := name; Upload.part_data := data;
     Upload.part_open_err := None; Upload.part_mkdir_err := None;
     Upload.part_create_err := None; Upload.part_copy_err := None |}.

Definition part_broken (name : string) (data : list byte) : Upload.part :=
  {| Upload.Filename := name; Upload.part_data := data;
     Upload.part_open_err := None; Upload.part_mkdir_err := None;
     Upload.part_create_err := None;
     Upload.part_copy_err := Some (2%nat, "no space left on device") |}.

Definition album : Upload.form :=
  {| Upload.directoryName := "album";
     Upload.form_files :=
       [ part_saved "a.jpg" ["1"; "2"; "3"]%byte;
         part_saved "b.jpg" ["4"; "5"]%byte ] |}.

Definition album_breaking : Upload.form :=
  {| Upload.directoryName := "album";
     Upload.form_files :=
       [ part_saved "a.jpg" ["1"; "2"; "3"]%byte;
         part_broken "b.jpg" ["4"; "5"; "6"]%byte;
         part_saved "c.jpg" ["7"]%byte ] |}.

(** A string without a dot and without a separator. *)
Definition dotless (t : string) : Prop :=
  Forall (λ c, IsPathSeparator c = false ∧ is_dot c = false)
         (String.list_ascii_of_string t).

End vocabulary.

(** * Properties *)

(** ** The standard library functions at work *)
Section Go_examples.
Import Go.

Example Ext_tar_gz : Ext "x/y.d/a.tar.gz" = ".gz".
Proof. reflexivity. Qed.
Example Ext_in_directory_only : Ext "x/y.d/README" = "".
Proof. reflexivity. Qed.
Example Join_plain : Join "uploads" "a.txt" = "uploads/a.txt".
Proof. reflexivity. Qed.
Example Join_dotdot : Join "uploads" "../../etc/x" = "../etc/x".
Proof. reflexivity. Qed.
Example Join_inner : Join "uploads" "a/./b//../c" = "uploads/a/c".
Proof. reflexivity. Qed.
Example Join_empty_name : Join "uploads" "" = "uploads".
Proof. reflexivity. Qed.
Example Join_rooted : Join "/" "../a" = "/a".
Proof. reflexivity. Qed.
Example HasSuffix_txt : HasSuffix "note.txt" ".txt" = true.
Proof. reflexivity. Qed.
Example HasSuffix_short : HasSuffix "txt" ".txt" = false.
Proof. reflexivity. Qed.
Example fmt_d_negative : fmt_d (-42) = "-42".
Proof. reflexivity. Qed.
Example wrap_int_overflow : wrap_int Int64 (MaxInt Int64 + 1) = MinInt Int64.
Proof. reflexivity. Qed.

End Go_examples.

(** ** The upload endpoint *)
Section ReceiveHandler_facts.
Import Go Models Http Receive.

Lemma params_checked (r : upload_request) :
  sessionId r ≠ "" -> fileId r ≠ "" -> token r ≠ "" ->
  bool_decide (sessionId r = "") || bool_decide (fileId r = "") ||
  bool_decide (token r = "") = false.
Proof.
  intros Hs Hf Ht.
  by rewrite !bool_decide_eq_false_2.
Qed.

Lemma params_missing (r : upload_request) :
  sessionId r = "" ∨ fileId r = "" ∨ token r = "" ->
  bool_decide (sessionId r = "") || bool_decide (fileId r = "") ||
  bool_decide (token r = "") = true.
Proof.
  intros [H | [H | H]]; rewrite (bool_decide_eq_true_2 _ H);
    rewrite ?orb_true_r; reflexivity.
Qed.

Lemma ReceiveHandler_accepted env s st fs r fileName :
  accepted env st r fileName ->
  ReceiveHandler env s st fs r =
    let filePath := Join "uploads" fileName in
    let loop :=
      chunk_loop env filePath 0 (consumed s (Body r)) (Create filePath fs) in
    match s with
    | TakeDone =>
        match loop.2 with
        | Some err =>
            (Remove filePath loop.1, Error err StatusInternalServerError)
        | None => (loop.1, WriteHeader StatusOK)
        end
    | TakeCtxDone _ => (Remove filePath loop.1, untouched)
    end.
Proof.
  intros (Hs & Hf & Ht & Hname & Hmk & Hcr).
  unfold ReceiveHandler.
  rewrite params_checked, Hname, Hmk, Hcr by assumption.
  cbv zeta.
  destruct (chunk_loop _ _ _ _ _) as [fs1 done].
  reflexivity.
Qed.

Lemma ReceiveHandler_refused env s st fs r :
  refused st r ->
  ∃ msg, ReceiveHandler env s st fs r = (fs, Error msg StatusBadRequest).
Proof.
  intros Href. unfold ReceiveHandler.
  destruct (bool_decide (sessionId r = "") || bool_decide (fileId r = "") ||
            bool_decide (token r = "")) eqn:Hp.
  - eauto.
  - destruct Href as [H | [H | [H | H]]].
    + rewrite params_missing in Hp by auto. discriminate.
    + rewrite params_missing in Hp by auto. discriminate.
    + rewrite params_missing in Hp by auto. discriminate.
    + rewrite H. eauto.
Qed.

Lemma file_append_lookup path data fs old :
  fs !! path = Some old ->
  file_append path data fs !! path = Some (old ++ data).
Proof.
  intros H. unfold file_append. rewrite H. apply lookup_insert_eq.
Qed.

(** One iteration of the chunk loop, by cases: the read fails, the read
    is empty, the write fails, or the loop goes on. *)
Lemma chunk_loop_cons env path i r rest fs :
  chunk_loop env path i (r :: rest) fs =
    match rd_err r, rd_data r, write_err env i with
    | ReadFailed e, _, _ => (fs, Some ("Failed to read file: " +:+ e))
    | _, [], _ => (fs, None)
    | _, data, Some (n, e) =>
        (file_append path (take n data) fs,
         Some ("Failed to write file: " +:+ e))
    | _, data, None =>
        chunk_loop env path (S i) rest (file_append path data fs)
    end.
Proof.
  simpl. destruct (rd_err r), (rd_data r), (write_err env i) as [[n we] |];
    reflexivity.
Qed.






(** *** The loop of the handshake over the files of the manifest *)

Lemma prepare_fold_clip files : ∀ acc,
  acc_clip (fold_left prepare_file files acc)
    = acc_clip acc ++ ((λ kv, Preview kv.2) <$> List.filter is_txt files).
Proof.
  induction files as [| kv files IH]; intros acc; simpl.
  - by rewrite app_nil_r.
  - rewrite IH. unfold is_txt at 2. simpl. unfold WriteToClipBoard.
    destruct (HasSuffix (FileName kv.2) ".txt"); simpl;
      [by rewrite <- app_assoc | done].
Qed.


Lemma prepare_fold_names files : ∀ acc id,
  id ∉ files.*1 ->
  acc_names (fold_left prepare_file files acc) !! id = acc_names acc !! id.
Proof.
  induction files as [| [k v] files IH]; intros acc id Hid; simpl; [done |].
  rewrite fmap_cons, not_elem_of_cons in Hid. destruct Hid as [Hne Hid].
  rewrite IH by done. simpl. by rewrite lookup_insert_ne.
Qed.

(** A file id that no handshake has announced is not in the table. *)
Lemma after_handshakes_names a reqs : ∀ st id,
  (∀ req, req ∈ reqs -> id ∉ (Req_Files req).*1) ->
  fileNames st !! id = None ->
  fileNames (after_handshakes a reqs st) !! id = None.
Proof.
  induction reqs as [| req reqs IH]; intros st id Hreqs Hst; simpl; [done |].
  apply IH.
  - intros req' Hin. apply Hreqs. by right.
  - simpl. unfold prepare_files. rewrite prepare_fold_names; [done |].
    apply Hreqs. by left.
Qed.

End ReceiveHandler_facts.

Section ReceiveHandler_claims.
Import Go Models Http Receive.

Lemma server_a_names : fileNames server_a !! "a.txt" = Some "a.txt".
Proof. reflexivity. Qed.

Lemma upload_a_accepted session tok body :
  session ≠ "" -> tok ≠ "" ->
  accepted os_ok server_a (upload_a session tok body) "a.txt".
Proof. intros Hs Ht. repeat split; done. Qed.

(** C1, as the specification has it, fails: after the handshake for
    [a.txt] has issued [token-a.txt] under [session-1], an upload of
    [a.txt] that bears the token [forged] is answered 200, not 403, and
    its bytes are written to [uploads/a.txt]. *)
Lemma forged_token_is_accepted :
  payload handshake_a.2
    = Json {| SessionID := "session-1";
              Files := {[ "a.txt" := "token-a.txt" ]} |} ∧
  "forged" ≠ "token-a.txt" ∧
  ReceiveHandler os_ok TakeDone server_a ∅
      (upload_a "session-1" "forged" two_chunks)
    = ({[ "uploads/a.txt" := ["a"; "b"; "c"]%byte ]},
       WriteHeader StatusOK) ∧
  status (WriteHeader StatusOK) ≠ Some 403.
Proof. repeat split; try done. Qed.

(** C1, amended: an upload request with an empty [sessionId], [fileId] or
    [token], or with a [fileId] that no handshake of the process run has
    announced (so that no token was ever issued for it), is rejected with
    status 400 and the file system is left as it was.  Whatever the
    operating system answers and whichever way the transfer would go. *)
Theorem upload_without_issued_token_rejected
    (a : int_size) (reqs : list PrepareReceiveRequest)
    (env : recv_env) (s : schedule) (fs : filesystem)
    (r : upload_request) :
  sessionId r = "" ∨ fileId r = "" ∨ token r = "" ∨
    (∀ req, req ∈ reqs -> fileId r ∉ (Req_Files req).*1) ->
  ∃ msg,
    ReceiveHandler env s (after_handshakes a reqs initial) fs r
      = (fs, Error msg StatusBadRequest).
Proof.
  intros H. apply ReceiveHandler_refused.
  destruct H as [H | [H | [H | H]]]; [by left | by right; left
                                     | by right; right; left |].
  right; right; right.
  apply after_handshakes_names; [| reflexivity].
  exact H.
Qed.

Lemma upload_without_issued_token_rejected_witness :
  ∃ msg,
    ReceiveHandler os_ok TakeDone (after_handshakes Int64 [manifest_a] initial)
        ∅ {| sessionId := "session-1"; fileId := "b.txt";
             token := "token-b.txt"; ContentLength := 3;
             Body := two_chunks |}
      = (∅, Error msg StatusBadRequest).
Proof.
  apply (upload_without_issued_token_rejected Int64 [manifest_a]).
  right; right; right. intros req Hreq.
  apply list_elem_of_singleton in Hreq. subst req. simpl.
  rewrite list_elem_of_singleton. discriminate.
Defined.

(** C9: two upload requests that differ only in their non-empty
    [sessionId] and [token] are handled alike (same file system, same
    response); and a request is turned away by the checks of the handler,
    with status 400 and nothing touched, exactly when one of the three
    parameters is empty or the [fileId] is not in the file name table. *)
Theorem ReceiveHandler_blind_to_session_and_token
    (env : recv_env) (s : schedule) (st : server) (fs : filesystem)
    (r r' : upload_request) :
  fileId r' = fileId r -> ContentLength r' = ContentLength r ->
  Body r' = Body r ->
  sessionId r ≠ "" -> token r ≠ "" -> sessionId r' ≠ "" -> token r' ≠ "" ->
  ReceiveHandler env s st fs r' = ReceiveHandler env s st fs r ∧
  (refused st r ↔
     ∃ msg, ReceiveHandler env s st fs r = (fs, Error msg StatusBadRequest)) ∧
  (refused st r ↔ fileId r = "" ∨ fileNames st !! fileId r = None).
Proof.
  intros Hf Hc Hb Hs Ht Hs' Ht'. split; [| split].
  - unfold ReceiveHandler. rewrite Hf, Hb.
    rewrite !(bool_decide_eq_false_2 (sessionId _ = "")) by assumption.
    rewrite !(bool_decide_eq_false_2 (token _ = "")) by assumption.
    reflexivity.
  - split; [apply ReceiveHandler_refused |].
    intros [msg Hmsg]. unfold refused.
    destruct (decide (fileId r = "")) as [? | Hfid]; [tauto |].
    destruct (fileNames st !! fileId r) as [fileName |] eqn:Hname; [| tauto].
    exfalso. revert Hmsg. unfold ReceiveHandler.
    rewrite params_checked, Hname by assumption.
    destruct (mkdirall_err env); [discriminate |].
    destruct (create_err env); [discriminate |].
    destruct (chunk_loop _ _ _ _ _) as [fs1 [err |]], s; discriminate.
  - unfold refused. tauto.
Qed.

Lemma ReceiveHandler_blind_to_session_and_token_witness :
  ReceiveHandler os_ok TakeDone server_a ∅
      (upload_a "session-7" "forged" two_chunks)
    = ReceiveHandler os_ok TakeDone server_a ∅
        (upload_a "session-1" "token-a.txt" two_chunks).
Proof.
  apply (ReceiveHandler_blind_to_session_and_token os_ok TakeDone server_a ∅
           (upload_a "session-1" "token-a.txt" two_chunks)
           (upload_a "session-7" "forged" two_chunks)); done.
Defined.





End ReceiveHandler_claims.

(** ** The handshake server *)
Section PrepareReceive_claims.
Import Go Models Http Receive.


(** C4, as the specification has it, fails: the handshake for
    [note.txt] with an empty preview hands the empty payload to the
    clipboard, one write where the claim has none. *)
Lemma empty_preview_is_written_to_clipboard :
  Preview empty_note = [] ∧
  (PrepareReceive Int64 initial [] (Some manifest_empty_note)).1.2 = [[]] ∧
  (PrepareReceive Int64 initial [] (Some manifest_empty_note)).1.2 ≠ [].
Proof. repeat split; done. Qed.

(** C4, amended: during the handshake the preview of every manifest
    entry whose file name ends in [.txt], empty or not, is handed to the
    clipboard once, in the order in which the entries are visited, and
    nothing else is; a body that does not decode leaves the clipboard
    alone.  The upload endpoint has no part in it. *)
Theorem PrepareReceive_clipboard_writes
    (a : int_size) (st : server) (clip : clipboard)
    (req : PrepareReceiveRequest) :
  (PrepareReceive a st clip (Some req)).1.2
    = clip ++ ((λ kv, Preview kv.2)
                 <$> List.filter (λ kv, HasSuffix (FileName kv.2) ".txt")
                                 (Req_Files req)) ∧
  (PrepareReceive a st clip None).1.2 = clip.
Proof.
  split; [| reflexivity].
  cbn [PrepareReceive fst snd]. unfold prepare_files.
  by rewrite prepare_fold_clip.
Qed.

End PrepareReceive_claims.

(** ** The handshake client *)
Section check_response_claims.
Import Go Models Send.

(** C6, as the specification has it, fails: a 204 reply makes the
    handshake return a [nil] response together with a non-[nil] error,
    like every other refusal, and [SendFile] returns that error to its
    caller. *)
Lemma no_content_is_reported_as_error :
  check_response no_content
    = (None, Some "finished (No file transfer needed)") ∧
  failed (check_response no_content) ∧
  SendFile receiver_says_204 [] []
    = ([], Some "finished (No file transfer needed)").
Proof. repeat split; done. Qed.

(** The handshake returns a response or an error, never both and never
    neither. *)
Lemma prepare_result_cases env dev vs ip :
  let out := SendFileToOtherDevicePrepare env dev vs ip in
  (out.1 = None ∧ out.2 ≠ None) ∨ (out.1 ≠ None ∧ out.2 = None).
Proof.
  unfold SendFileToOtherDevicePrepare, check_response.
  destruct (build_manifest _ _); [by left |].
  destruct (marshal_err env); [by left |].
  destruct (post env _ _) as [e | resp]; [by left |].
  destruct (negb _).
  - repeat (destruct (_ =? _); [by left |]). by left.
  - destruct (decoded resp); [by left | by right].
Qed.

Lemma status_message_inj (x y : Z) :
  "failed to send metadata: received status code " +:+ fmt_d x
    = "failed to send metadata: received status code " +:+ fmt_d y ->
  x = y.
Proof.
  intros H. apply (inj _) in H. unfold fmt_d in H. by apply (inj _) in H.
Qed.

(** The five cases of the status switch. *)
Lemma check_response_not_ok (r : reply) :
  StatusCode r ≠ 200 ->
  check_response r =
    (None,
     Some (if StatusCode r =? 204 then "finished (No file transfer needed)"
           else if StatusCode r =? 400 then "invalid body"
           else if StatusCode r =? 403 then "rejected"
           else if StatusCode r =? 500 then "unknown error by receiver"
           else "failed to send metadata: received status code "
                +:+ fmt_d (StatusCode r))).
Proof.
  intros H. unfold check_response.
  rewrite (proj2 (Z.eqb_neq _ _) H). cbn [negb].
  repeat (destruct (_ =? _); [reflexivity |]). reflexivity.
Qed.

(** C6, amended: a reply with a status other than 200 is never decoded
    and always gives an error; the errors of two such replies with
    different status codes differ, so that 204 ("finished (No file
    transfer needed)"), 400, 403, 500 and every other code are told
    apart by their message; only a reply with status 200 is decoded, and
    gives the decoded response when decoding succeeds. *)
Theorem check_response_classification (r r' : reply) :
  (StatusCode r ≠ 200 ->
     (check_response r).1 = None ∧ failed (check_response r)) ∧
  (StatusCode r = 204 ->
     (check_response r).2 = Some "finished (No file transfer needed)") ∧
  (StatusCode r ≠ 200 -> StatusCode r' ≠ 200 ->
     StatusCode r ≠ StatusCode r' ->
     (check_response r).2 ≠ (check_response r').2) ∧
  (StatusCode r = 200 ->
     check_response r =
       match decoded r with
       | inl e => (None, Some ("error decoding response JSON: " +:+ e))
       | inr prepareReceiveResponse => (Some prepareReceiveResponse, None)
       end) ∧
  ((check_response r).1 ≠ None -> StatusCode r = 200).
Proof.
  split; [| split; [| split; [| split]]].
  - intros H. rewrite check_response_not_ok by done. by split.
  - intros H. rewrite check_response_not_ok by (rewrite H; done).
    by rewrite H.
  - intros H H' Hne. rewrite !check_response_not_ok by done.
    cbn [snd]. intros Heq. apply Hne. injection Heq as Heq. clear H H'.
    destruct (Z.eqb_spec (StatusCode r) 204),
             (Z.eqb_spec (StatusCode r) 400),
             (Z.eqb_spec (StatusCode r) 403),
             (Z.eqb_spec (StatusCode r) 500),
             (Z.eqb_spec (StatusCode r') 204),
             (Z.eqb_spec (StatusCode r') 400),
             (Z.eqb_spec (StatusCode r') 403),
             (Z.eqb_spec (StatusCode r') 500);
      try congruence; try lia;
      try (cbv [String.append] in Heq; discriminate Heq).
    by apply status_message_inj.
  - intros H. unfold check_response. rewrite H. reflexivity.
  - intros H. destruct (decide (StatusCode r = 200)) as [| Hne]; [done |].
    rewrite check_response_not_ok in H by done. done.
Qed.

End check_response_claims.

(** ** Walks: the manifest builder and the upload loop *)
Section Walk_facts.
Import Go Models Send.

Lemma Walk_app {S : Type} (fn : S -> visit -> S * option error)
    (pre post : list visit) : ∀ s,
  Walk fn (pre ++ post) s =
    match Walk fn pre s with
    | (s', Some e) => (s', Some e)
    | (s', None) => Walk fn post s'
    end.
Proof.
  induction pre as [| v pre IH]; intros s; simpl; [done |].
  destruct (fn s v) as [s' [e |]]; [done | apply IH].
Qed.

Lemma manifest_visit_ok sha256 files v files' :
  manifest_visit sha256 files v = (files', None) ->
  (v_err v = None ∧ v_isDir v = true ∧ files' = files) ∨
  (∃ m, recorded sha256 v m ∧ files' = <[v_name v := m]> files).
Proof.
  unfold manifest_visit, recorded.
  destruct (v_err v) as [e |]; [discriminate |].
  destruct (v_isDir v).
  - intros [= <-]. by left.
  - destruct (sha256 (v_path v)) as [e | h] eqn:Hsha; [discriminate |].
    intros [= <-]. right. eexists. split; [| reflexivity]. eauto.
Qed.

(** Every entry of a finished walk was there before or comes from a visit
    of the walk, under the name of that visit. *)
Lemma manifest_walk_entries sha256 vs : ∀ files files',
  Walk (manifest_visit sha256) vs files = (files', None) ->
  ∀ id m, files' !! id = Some m ->
    files !! id = Some m ∨
    ∃ v, v ∈ vs ∧ recorded sha256 v m ∧ v_name v = id.
Proof.
  induction vs as [| v vs IH]; intros files files' Hwalk id m Hm.
  - simpl in Hwalk. injection Hwalk as <-. by left.
  - simpl in Hwalk.
    destruct (manifest_visit sha256 files v) as [files1 [e |]] eqn:Hv;
      [discriminate |].
    destruct (IH _ _ Hwalk _ _ Hm) as [Hold | (w & Hw & Hrec & Hname)].
    + apply manifest_visit_ok in Hv
        as [(_ & _ & ->) | (m' & Hrec & ->)]; [by left |].
      destruct (decide (v_name v = id)) as [Heq | Hne].
      * subst id. rewrite lookup_insert_eq in Hold. injection Hold as <-.
        right. exists v. split; [by left | done].
      * rewrite lookup_insert_ne in Hold by done. by left.
    + right. exists w. split; [by right | done].
Qed.

(** The visits that follow do not touch the entry of a name none of their
    files bears. *)
Lemma manifest_walk_later sha256 post : ∀ files files' name,
  Walk (manifest_visit sha256) post files = (files', None) ->
  (∀ w, w ∈ post -> v_isDir w = false -> v_name w ≠ name) ->
  files' !! name = files !! name.
Proof.
  induction post as [| w post IH]; intros files files' name Hwalk Hpost.
  - simpl in Hwalk. by injection Hwalk as <-.
  - simpl in Hwalk.
    destruct (manifest_visit sha256 files w) as [files1 [e |]] eqn:Hw;
      [discriminate |].
    rewrite (IH _ _ name Hwalk) by (intros; apply Hpost; [by right | done]).
    apply manifest_visit_ok in Hw
      as [(_ & _ & ->) | (m & (_ & Hdir & _) & ->)]; [done |].
    apply lookup_insert_ne. apply Hpost; [by left | done].
Qed.

End Walk_facts.

Section manifest_claims.
Import Go Models Send.

(** C7: in a manifest that the builder returns, every entry stands under
    the base name of a visited file, which is also its [ID] and its
    [FileName]; and for a visited file whose base name no later file of the
    walk bears, the entry under that name is the one made from this file
    (its size, its extension, its hash), whatever files of the same name
    came before, and it is the only entry with that [ID]. *)
Theorem manifest_last_write_wins
    (sha256 : string -> error + string) (vs : list visit)
    (files : gmap string FileInfo) :
  build_manifest sha256 vs = inr files ->
  (∀ id m, files !! id = Some m ->
     ID m = id ∧ FileName m = id ∧
     ∃ v, v ∈ vs ∧ v_isDir v = false ∧ v_name v = id) ∧
  (∀ pre v post,
     vs = pre ++ v :: post ->
     v_isDir v = false ->
     (∀ w, w ∈ post -> v_isDir w = false -> v_name w ≠ v_name v) ->
     ∃ h, sha256 (v_path v) = inr h ∧
          files !! v_name v = Some (metadata v h) ∧
          ∀ id m, files !! id = Some m -> ID m = v_name v ->
                  id = v_name v ∧ m = metadata v h).
Proof.
  unfold build_manifest.
  destruct (Walk (manifest_visit sha256) vs ∅) as [files' [e |]] eqn:Hwalk;
    [discriminate |].
  intros [= ->].
  assert (Hentries : ∀ id m, files !! id = Some m ->
            ID m = id ∧ FileName m = id ∧
            ∃ v, v ∈ vs ∧ v_isDir v = false ∧ v_name v = id).
  { intros id m Hm.
    destruct (manifest_walk_entries _ _ _ _ Hwalk _ _ Hm)
      as [Hempty | (v & Hv & (_ & Hdir & h & _ & ->) & Hname)].
    - by rewrite lookup_empty in Hempty.
    - simpl. eauto 10. }
  split; [exact Hentries |].
  intros pre v post -> Hdir Hlast.
  rewrite Walk_app in Hwalk.
  destruct (Walk (manifest_visit sha256) pre ∅) as [files1 [e |]];
    [discriminate |].
  simpl in Hwalk.
  destruct (manifest_visit sha256 files1 v) as [files2 [e |]] eqn:Hv;
    [discriminate |].
  apply manifest_visit_ok in Hv
    as [(_ & Hdir' & _) | (m & (_ & _ & h & Hsha & ->) & ->)];
    [congruence |].
  exists h. split; [done |].
  assert (Hhere : files !! v_name v = Some (metadata v h)).
  { rewrite (manifest_walk_later _ _ _ _ _ Hwalk Hlast).
    apply lookup_insert_eq. }
  split; [done |].
  intros id m Hm Hid.
  destruct (Hentries _ _ Hm) as (Hid' & _ & _).
  assert (id = v_name v) as -> by congruence.
  split; [done | congruence].
Qed.

Lemma manifest_last_write_wins_witness :
  build_manifest sha_of_path colliding_walk = inr colliding_manifest ∧
  ∃ h, sha_of_path "y/a.txt" = inr h ∧
       colliding_manifest !! "a.txt"
         = Some {| ID := "a.txt"; FileName := "a.txt"; Size := 20;
                   FileType := ".txt"; SHA256 := h; Preview := [] |}.
Proof.
  split; [reflexivity |].
  destruct (manifest_last_write_wins sha_of_path colliding_walk
              colliding_manifest eq_refl) as [_ Hlast].
  destruct (Hlast (take 3 colliding_walk)
              {| v_path := "y/a.txt"; v_name := "a.txt"; v_isDir := false;
                 v_size := 20; v_err := None |} [])
    as (h & Hsha & Hentry & _).
  - reflexivity.
  - reflexivity.
  - intros w Hw. by apply elem_of_nil in Hw.
  - exists h. split; [exact Hsha | exact Hentry].
Defined.

End manifest_claims.

(** ** The upload loop of [SendFile] *)
Section upload_facts.
Import Go Models Send.

(** A call of [uploadFile] makes at most one request, for the path it was
    given, and makes it whenever it succeeds. *)
Lemma uploadFile_requests env ip sessionId fileId token filePath :
  let out := uploadFile env ip sessionId fileId token filePath in
  (out.1 = [] ∧ out.2 ≠ None) ∨
  (∃ url, out.1 = [{| sent_url := url; sent_path := filePath |}]).
Proof.
  unfold uploadFile.
  destruct (open_err env); [by left |].
  destruct (stat_err env); [by left |].
  destruct (newreq_err env); [by left |].
  right. eexists.
  destruct (ctx_done env && _); [reflexivity |].
  destruct (copy_err env); [reflexivity |].
  destruct (do_result env) as [e | code]; [reflexivity |].
  destruct (negb _); reflexivity.
Qed.

(** With the cancellation signal up when the [select] looks, the upload
    fails, whichever case the [select] takes. *)
Lemma uploadFile_cancelled env ip sessionId fileId token filePath :
  ctx_done env = true ->
  (uploadFile env ip sessionId fileId token filePath).2 ≠ None.
Proof.
  intros Hctx. unfold uploadFile. rewrite Hctx. cbn [andb].
  destruct (open_err env); [done |].
  destruct (stat_err env); [done |].
  destruct (newreq_err env); [done |].
  destruct (copy_err env) as [e |].
  - destruct (pick_ctx env || _); done.
  - rewrite bool_decide_eq_true_2 by done. rewrite orb_true_r. done.
Qed.

(** One visit of the upload loop adds at most one request, for the path
    visited, and adds it whenever it visits a file and succeeds. *)
Lemma upload_visit_log net ip response log v :
  let out := upload_visit net ip response log v in
  (out.1 = log ∧ (out.2 = None -> v_isDir v = true)) ∨
  (v_isDir v = false ∧
   ∃ url, out.1 = log ++ [{| sent_url := url; sent_path := v_path v |}]).
Proof.
  unfold upload_visit.
  destruct (v_err v); [by left |].
  destruct (v_isDir v); [by left |].
  destruct (Files response !! v_name v) as [token |]; [| by left].
  pose proof (uploadFile_requests (net (v_path v)) ip (SessionID response)
                (v_name v) token (v_path v)) as Hreq.
  destruct (uploadFile _ _ _ _ _ _) as [reqs [e |]]; cbn [fst snd] in *.
  - destruct Hreq as [[-> _] | [url ->]]; [left | right; eauto].
    by rewrite app_nil_r.
  - destruct Hreq as [[_ Hnone] | [url ->]]; [done | right; eauto].
Qed.

(** A walk that goes through has requested the files it visited, each
    once, in the order of the visits. *)
Lemma upload_walk_done net ip response vs : ∀ log log',
  Walk (upload_visit net ip response) vs log = (log', None) ->
  sent_path <$> log'
    = (sent_path <$> log) ++ (v_path <$> List.filter is_file vs).
Proof.
  induction vs as [| v vs IH]; intros log log' Hwalk; simpl in Hwalk.
  - injection Hwalk as <-. simpl. by rewrite app_nil_r.
  - destruct (upload_visit net ip response log v) as [log1 [e |]] eqn:Hv;
      [discriminate |].
    rewrite (IH _ _ Hwalk). simpl. unfold is_file at 2.
    pose proof (upload_visit_log net ip response log v) as Hlog.
    rewrite Hv in Hlog. cbn [fst snd] in Hlog.
    destruct Hlog as [[-> Hdir] | [Hdir [url ->]]].
    + by rewrite Hdir.
    + rewrite Hdir. simpl. rewrite fmap_app. simpl.
      by rewrite <- app_assoc.
Qed.

End upload_facts.

Section SendFile_claims.
Import Go Models Send.

(** C5: if the walk of the upload loop has gone through the visits [pre]
    and the next visit [v] fails (its upload, or already the look-up of its
    token or the walk itself), then [SendFile] returns an error; the
    requests made are those for the files of [pre], one each in the order
    of the walk, followed by at most the one for [v]; and no visit after
    [v] is requested.  An upload that finds the cancellation signal up
    fails. *)
Theorem SendFile_aborts_at_first_failure
    (env : send_env) (vs1 pre post : list visit) (v : visit)
    (ip : string) (response : PrepareReceiveResponse)
    (log log' : list sent) (e : error) :
  select_device env = inr ip ->
  SendFileToOtherDevicePrepare (prepare env) (device env) vs1 ip
    = (Some response, None) ->
  upload_walk (network env) ip response pre = (log, None) ->
  upload_visit (network env) ip response log v = (log', Some e) ->
  SendFile env vs1 (pre ++ v :: post)
    = (log', Some ("error walking the path: " +:+ e)) ∧
  sent_path <$> log = v_path <$> List.filter is_file pre ∧
  (log' = log ∨
   ∃ url, log' = log ++ [{| sent_url := url; sent_path := v_path v |}]) ∧
  (∀ w, w ∈ post -> v_path w ∉ v_path <$> (pre ++ [v]) ->
        v_path w ∉ sent_path <$> log') ∧
  (∀ uenv sessionId fileId token filePath,
     ctx_done uenv = true ->
     (uploadFile uenv ip sessionId fileId token filePath).2 ≠ None).
Proof.
  intros Hip Hprep Hpre Hv.
  assert (Hlog : sent_path <$> log = v_path <$> List.filter is_file pre).
  { unfold upload_walk in Hpre. by rewrite (upload_walk_done _ _ _ _ _ _ Hpre). }
  assert (Hlog' : log' = log ∨
            ∃ url, log' = log ++ [{| sent_url := url; sent_path := v_path v |}]).
  { pose proof (upload_visit_log (network env) ip response log v) as H.
    rewrite Hv in H. cbn [fst snd] in H.
    destruct H as [[-> _] | [_ [url ->]]]; eauto. }
  split; [| split; [done | split; [done | split]]].
  - unfold SendFile. rewrite Hip, Hprep. unfold upload_walk in *.
    rewrite Walk_app, Hpre. simpl. by rewrite Hv.
  - intros w Hw Hfresh Hin. apply Hfresh.
    rewrite fmap_app, elem_of_app.
    destruct Hlog' as [-> | [url ->]].
    + left. rewrite Hlog in Hin.
      apply list_elem_of_fmap in Hin as (u & -> & Hu).
      apply list_elem_of_fmap. exists u. split; [done |].
      apply list_elem_of_In, filter_In in Hu as [Hu _].
      by apply list_elem_of_In.
    + rewrite fmap_app, elem_of_app in Hin. destruct Hin as [Hin | Hin].
      * left. rewrite Hlog in Hin.
        apply list_elem_of_fmap in Hin as (u & -> & Hu).
        apply list_elem_of_fmap. exists u. split; [done |].
        apply list_elem_of_In, filter_In in Hu as [Hu _].
        by apply list_elem_of_In.
      * right. simpl in *. exact Hin.
  - intros. by apply uploadFile_cancelled.
Qed.

End SendFile_claims.

Lemma SendFile_aborts_at_first_failure_witness :
  Send.SendFile cancelled_during_second
      (batch_walk_head ++ batch_second :: batch_walk_tail)
      (batch_walk_head ++ batch_second :: batch_walk_tail)
    = ([request_for "a.txt"; request_for "b.txt"],
       Some ("error walking the path: "
             +:+ "error uploading file: Transfer cancelled")).
Proof.
  apply (SendFile_aborts_at_first_failure cancelled_during_second
           (batch_walk_head ++ batch_second :: batch_walk_tail)
           batch_walk_head batch_walk_tail batch_second
           "192.168.1.20" batch_response
           [request_for "a.txt"]
           [request_for "a.txt"; request_for "b.txt"]
           "error uploading file: Transfer cancelled");
    reflexivity.
Defined.

(** ** Session ids *)
Section Sessions_facts.
Import Go Receive Sessions.

Lemma int_half_positive a : 0 < 2 ^ (int_bits a - 1).
Proof. destruct a; reflexivity. Qed.

Lemma int_modulus a : 2 ^ int_bits a = 2 * 2 ^ (int_bits a - 1).
Proof. destruct a; reflexivity. Qed.

Lemma wrap_int_small a z : MinInt a <= z <= MaxInt a -> wrap_int a z = z.
Proof.
  unfold MinInt, MaxInt, wrap_int. intros Hz.
  pose proof (int_half_positive a). pose proof (int_modulus a).
  rewrite Z.mod_small; lia.
Qed.

Lemma wrap_int_succ a z : wrap_int a (wrap_int a z + 1) = wrap_int a (z + 1).
Proof.
  unfold wrap_int.
  replace ((z + 2 ^ (int_bits a - 1)) mod 2 ^ int_bits a
           - 2 ^ (int_bits a - 1) + 1 + 2 ^ (int_bits a - 1))
    with ((z + 2 ^ (int_bits a - 1)) mod 2 ^ int_bits a + 1) by lia.
  rewrite Zplus_mod_idemp_l. do 2 f_equal. lia.
Qed.

Lemma session_name_inj : Inj (=) (=) session_name.
Proof.
  intros x y H. unfold session_name, fmt_d in H.
  apply (inj _) in H. by apply (inj _) in H.
Qed.

(** The counter after [k] handshakes in a row. *)
Lemma nth_session_counter_wraps a req k :
  nth_session_counter a req k = wrap_int a (Z.of_N k).
Proof.
  unfold nth_session_counter.
  induction k as [| k IH] using N.peano_ind.
  - by destruct a.
  - rewrite N.iter_succ. unfold after_prepare at 1.
    cbn [PrepareReceive fst snd sessionIDCounter].
    rewrite IH. unfold next_counter. rewrite wrap_int_succ.
    f_equal. lia.
Qed.

(** Counting over a list of calls of which one moves on. *)
Lemma count_calls_insert f l : ∀ i p q,
  l !! i = Some p ->
  (count_calls f (<[i := q]> l) + (if f p then 1 else 0)
   = count_calls f l + (if f q then 1 else 0))%nat.
Proof.
  induction l as [| x l IH]; intros [| i] p q Hi; simplify_eq/=.
  - lia.
  - specialize (IH _ _ q Hi). lia.
Qed.

Lemma count_calls_replicate f n p :
  f p = false -> count_calls f (replicate n p) = 0%nat.
Proof. intros Hp. induction n as [| n IH]; simpl; [done |]. by rewrite Hp. Qed.

Lemma holds_insert_same (l : list call) : ∀ i p q,
  l !! i = Some p -> holds p = holds q ->
  omap holds (<[i := q]> l) = omap holds l.
Proof.
  induction l as [| x l IH]; intros [| i] p q Hi Hpq; simplify_eq/=.
  - by rewrite Hpq.
  - by rewrite (IH _ _ _ Hi Hpq).
Qed.

Lemma holds_insert_new (l : list call) : ∀ i p q s,
  l !! i = Some p -> holds p = None -> holds q = Some s ->
  omap holds (<[i := q]> l) ≡ₚ omap holds l ++ [s].
Proof.
  induction l as [| x l IH]; intros [| i] p q s Hi Hp Hq; simplify_eq/=.
  - rewrite Hp, Hq. by rewrite Permutation_app_comm.
  - destruct (holds x); [| by eapply IH].
    simpl. f_equiv. by eapply IH.
Qed.

(** A session id is held by one call at most when no id is held twice. *)
Lemma holds_once (l : list call) : ∀ i j p q s,
  NoDup (omap holds l) ->
  l !! i = Some p -> l !! j = Some q ->
  holds p = Some s -> holds q = Some s -> i = j.
Proof.
  assert (Hin : ∀ (l : list call) i p s, l !! i = Some p -> holds p = Some s ->
            s ∈ omap holds l).
  { intros l' i p s Hi Hp. apply list_elem_of_omap. exists p.
    split; [| done]. by eapply list_elem_of_lookup_2. }
  induction l as [| x l IH]; intros [| i] [| j] p q s Hnd Hi Hj Hp Hq;
    simplify_eq/=; [done | | | f_equal].
  - rewrite Hp in Hnd. apply NoDup_cons in Hnd as [Hnot _].
    destruct Hnot. eauto.
  - rewrite Hq in Hnd. apply NoDup_cons in Hnd as [Hnot _].
    destruct Hnot. eauto.
  - eapply IH; eauto.
    destruct (holds x); [by apply NoDup_cons in Hnd as [_ ?] | done].
Qed.

Lemma incremented_in_critical_section l :
  (count_calls incremented l <= count_calls in_critical_section l)%nat.
Proof.
  induction l as [| p l IH]; simpl; [lia |]. destruct p; simpl; lia.
Qed.

Lemma invariant_start a n : invariant a n (start n).
Proof.
  split; simpl.
  - apply length_replicate.
  - by apply count_calls_replicate.
  - rewrite count_calls_replicate by done. by destruct a.
  - done.
  - induction n as [| n IH]; simpl; done.
Qed.

Lemma invariant_step a n c c' :
  invariant a n c -> step a c c' -> invariant a n c'.
Proof.
  intros [Hcalls Hmutex Hcounter Hissued Hholds] Hstep.
  pose proof (incremented_in_critical_section (calls c)) as Hle.
  destruct Hstep as [i Hi Hfree | i Hi | i Hi | i sessionID Hi];
    split; cbn [counter locked calls issued].
  - by rewrite length_insert.
  - pose proof (count_calls_insert in_critical_section _ _ _ AtIncrement Hi).
    rewrite Hfree in Hmutex. simpl in *. lia.
  - pose proof (count_calls_insert incremented _ _ _ AtIncrement Hi) as H.
    simpl in H. rewrite Hcounter. do 2 f_equal. lia.
  - done.
  - by rewrite (holds_insert_same _ _ _ _ Hi).
  - by rewrite length_insert.
  - pose proof (count_calls_insert in_critical_section _ _ _ AtSprintf Hi).
    rewrite <- Hmutex. simpl in *. lia.
  - pose proof (count_calls_insert incremented _ _ _ AtSprintf Hi) as H.
    simpl in H. unfold next_counter. rewrite Hcounter, wrap_int_succ.
    f_equal. lia.
  - done.
  - by rewrite (holds_insert_same _ _ _ _ Hi).
  - by rewrite length_insert.
  - pose proof (count_calls_insert in_critical_section _ _ _
                  (AtUnlock (session_name (counter c))) Hi).
    rewrite <- Hmutex. simpl in *. lia.
  - pose proof (count_calls_insert incremented _ _ _
                  (AtUnlock (session_name (counter c))) Hi) as H.
    simpl in H. rewrite length_app. simpl.
    etrans; [exact Hcounter |]. f_equal. lia.
  - pose proof (count_calls_insert incremented _ _ _
                  (AtUnlock (session_name (counter c))) Hi) as H.
    pose proof (count_calls_insert in_critical_section _ _ _
                  (AtUnlock (session_name (counter c))) Hi) as H'.
    simpl in H, H'.
    assert (count_calls incremented (calls c) = 1%nat) as Hone
      by (destruct (locked c); lia).
    rewrite length_app. simpl.
    rewrite Nat.add_1_r, seq_S, fmap_app. simpl.
    rewrite <- Hissued. do 2 f_equal.
    rewrite Hcounter, Hone. f_equal. lia.
  - rewrite fmap_app. simpl. rewrite <- Hholds.
    by apply (holds_insert_new _ _ _ _ _ Hi).
  - by rewrite length_insert.
  - pose proof (count_calls_insert in_critical_section _ _ _
                  (Past sessionID) Hi) as H.
    simpl in H. destruct (locked c); lia.
  - pose proof (count_calls_insert incremented _ _ _ (Past sessionID) Hi) as H.
    simpl in H. rewrite Hcounter. do 2 f_equal. lia.
  - done.
  - by rewrite (holds_insert_same _ _ _ _ Hi).
Qed.

Lemma invariant_reachable a n c : reachable a n c -> invariant a n c.
Proof.
  unfold reachable. intros Hrun.
  eapply (rtc_ind_r (invariant a n)); [| | exact Hrun].
  - apply invariant_start.
  - intros c1 c2 _ Hstep Hinv. by eapply invariant_step.
Qed.

(** A handshake that runs its critical section without interruption takes
    the four steps; they leave the counter and the session id that
    [PrepareReceive] computes. *)
Lemma uninterrupted_call a c i st clip req :
  calls c !! i = Some AtLock ->
  locked c = false ->
  counter c = sessionIDCounter st ->
  let st' := (PrepareReceive a st clip (Some req)).1.1 in
  rtc (step a) c
    {| counter := sessionIDCounter st';
       locked := false;
       calls := <[i := Past (session_name (sessionIDCounter st'))]> (calls c);
       issued := issued c ++ [sessionIDCounter st'] |}.
Proof.
  intros Hi Hfree Hcounter st'.
  assert (Hlt : (i < length (calls c))%nat) by by eapply lookup_lt_Some.
  subst st'. cbn [PrepareReceive fst snd sessionIDCounter].
  rewrite <- Hcounter.
  eapply rtc_l; [by apply (step_lock _ _ i) |].
  eapply rtc_l.
  { apply (step_increment _ _ i). cbn [calls].
    by apply list_lookup_insert_eq. }
  eapply rtc_l.
  { apply (step_sprintf _ _ i). cbn [calls].
    apply list_lookup_insert_eq. by rewrite length_insert. }
  eapply rtc_l.
  { eapply (step_unlock _ _ i). cbn [calls].
    apply list_lookup_insert_eq. by rewrite !length_insert. }
  cbn [counter locked calls issued].
  rewrite !list_insert_insert_eq. apply rtc_refl.
Qed.

Lemma seq_strictly_increasing len : ∀ from,
  StronglySorted Z.lt (Z.of_nat <$> seq from len).
Proof.
  induction len as [| len IH]; intros from; simpl; constructor; [apply IH |].
  apply Forall_fmap, Forall_seq. intros k Hk. simpl. lia.
Qed.

End Sessions_facts.

Section Sessions_claims.
Import Go Receive Sessions.

(** C3, as the specification has it, fails: [sessionIDCounter] is an [int]
    and [sessionIDCounter++] wraps around.  On a target whose [int] has 32
    bits (arm/6, arm/7) the handshake number [2^31] of a process run gets
    the counter [-2147483648] and the session id [session--2147483648],
    below the [2147483647] of the handshake before it; with 64 bits the
    same happens at handshake number [2^63]. *)
Lemma session_counter_overflows :
  nth_session_counter Int32 manifest_a (2 ^ 31 - 1) = 2147483647 ∧
  nth_session_counter Int32 manifest_a (2 ^ 31) = -2147483648 ∧
  session_name (nth_session_counter Int32 manifest_a (2 ^ 31))
    = "session--2147483648" ∧
  nth_session_counter Int32 manifest_a (2 ^ 31)
    < nth_session_counter Int32 manifest_a (2 ^ 31 - 1) ∧
  nth_session_counter Int64 manifest_a (2 ^ 63)
    < nth_session_counter Int64 manifest_a (2 ^ 63 - 1).
Proof.
  rewrite !nth_session_counter_wraps. repeat split.
Qed.

Lemma length_holds (l : list call) : (length (omap holds l) <= length l)%nat.
Proof.
  induction l as [| p l IH]; [done |].
  change (omap holds (p :: l))
    with (match holds p with
          | Some s => s :: omap holds l
          | None => omap holds l
          end).
  destruct (holds p); simpl length; lia.
Qed.

(** C3, amended: in every configuration that [n] handshakes running
    concurrently can reach, with [n] at most [MaxInt], the counter values
    read under the lock are [1, 2, ...] in the order in which they were
    read, hence strictly increasing, the session ids made from them are
    pairwise different, and no two calls hold the same session id. *)
Theorem session_ids_unique_and_increasing
    (a : int_size) (n : nat) (c : config) :
  reachable a n c ->
  Z.of_nat n <= MaxInt a ->
  issued c = Z.of_nat <$> seq 1 (length (issued c)) ∧
  StronglySorted Z.lt (issued c) ∧
  NoDup (session_name <$> issued c) ∧
  (∀ i p s, calls c !! i = Some p -> holds p = Some s ->
            s ∈ session_name <$> issued c) ∧
  (∀ i j p q s, calls c !! i = Some p -> calls c !! j = Some q ->
                holds p = Some s -> holds q = Some s -> i = j).
Proof.
  intros Hrun Hn.
  destruct (invariant_reachable _ _ _ Hrun)
    as [Hcalls Hmutex Hcounter Hissued Hholds].
  assert (Hlen : (length (issued c) <= n)%nat).
  { rewrite <- Hcalls. etrans; [| apply length_holds].
    by rewrite Hholds, length_fmap. }
  assert (Hplain : issued c = Z.of_nat <$> seq 1 (length (issued c))).
  { etrans; [exact Hissued |].
    apply Forall_fmap_ext, Forall_seq. intros k Hk. cbv beta.
    apply wrap_int_small. pose proof (int_half_positive a).
    unfold MinInt, MaxInt in *. lia. }
  assert (Hnodup : NoDup (session_name <$> issued c)).
  { apply (@NoDup_fmap_2 _ _ session_name session_name_inj). rewrite Hplain.
    apply (NoDup_fmap_2 _), NoDup_seq. }
  split; [exact Hplain |]. split; [| split; [exact Hnodup | split]].
  - rewrite Hplain. apply seq_strictly_increasing.
  - intros i p s Hi Hp. rewrite <- Hholds.
    apply list_elem_of_omap. exists p.
    split; [by eapply list_elem_of_lookup_2 | done].
  - intros i j p q s Hi Hj Hp Hq.
    eapply holds_once; eauto. by rewrite Hholds.
Qed.

Lemma two_handshakes_reachable : reachable Int64 2 two_handshakes_done.
Proof.
  unfold reachable.
  eapply rtc_l; [apply (step_lock _ _ 1%nat); reflexivity |].
  eapply rtc_l; [apply (step_increment _ _ 1%nat); reflexivity |].
  eapply rtc_l; [apply (step_sprintf _ _ 1%nat); reflexivity |].
  eapply rtc_l; [eapply (step_unlock _ _ 1%nat); reflexivity |].
  eapply rtc_l; [apply (step_lock _ _ 0%nat); reflexivity |].
  eapply rtc_l; [apply (step_increment _ _ 0%nat); reflexivity |].
  eapply rtc_l; [apply (step_sprintf _ _ 0%nat); reflexivity |].
  eapply rtc_l; [eapply (step_unlock _ _ 0%nat); reflexivity |].
  apply rtc_refl.
Defined.

Lemma session_ids_unique_and_increasing_witness :
  issued two_handshakes_done
    = Z.of_nat <$> seq 1 (length (issued two_handshakes_done)) ∧
  StronglySorted Z.lt (issued two_handshakes_done) ∧
  NoDup (session_name <$> issued two_handshakes_done).
Proof.
  destruct (session_ids_unique_and_increasing Int64 2 two_handshakes_done)
    as (H1 & H2 & H3 & _).
  - exact two_handshakes_reachable.
  - vm_compute. discriminate.
  - exact (conj H1 (conj H2 H3)).
Defined.

End Sessions_claims.

(** ** Where an upload lands: [filepath.Join("uploads", fileName)] *)
Section destination_facts.
Import Go Models Http Receive.

Lemma list_ascii_of_append (s t : string) :
  String.list_ascii_of_string (s +:+ t)
    = String.list_ascii_of_string s ++ String.list_ascii_of_string t.
Proof.
  induction s as [| c s IH]; [done |].
  change (String c s +:+ t) with (String c (s +:+ t)).
  simpl. by rewrite IH.
Qed.

Lemma string_of_list_app (l k : list ascii) :
  String.string_of_list_ascii (l ++ k)
    = String.string_of_list_ascii l +:+ String.string_of_list_ascii k.
Proof.
  induction l as [| c l IH]; [done |].
  simpl. rewrite IH. reflexivity.
Qed.

Lemma clean_copy_element (l : list ascii) : ∀ out,
  Forall (λ c, IsPathSeparator c = false) l ->
  clean_copy l out = ([], rev l ++ out).
Proof.
  induction l as [| c l IH]; intros out Hl; [done |].
  apply Forall_cons in Hl as [Hc Hl].
  simpl. rewrite Hc, IH by done. by rewrite <- app_assoc.
Qed.

(** The last element of a path, when it is a name: it is appended, after a
    separator unless the buffer is empty. *)
Lemma clean_loop_last_element fuel (l out : list ascii) dotdot :
  l ≠ [] -> l ≠ ["."%char] -> l ≠ ["."%char; "."%char] ->
  Forall (λ c, IsPathSeparator c = false) l ->
  clean_loop (S fuel) false l out dotdot
    = rev l ++ (if (length out =? 0)%nat then out else "/"%char :: out).
Proof.
  intros Hnil Hdot Hdotdot Hl.
  destruct l as [| c rest]; [done |].
  pose proof Hl as Hl'. apply Forall_cons in Hl' as [Hc Hrest].
  cbn [clean_loop]. rewrite Hc.
  assert (Hfirst : is_dot c && at_element_end rest = false).
  { destruct (is_dot c) eqn:Hd; [| done].
    apply Ascii.eqb_eq in Hd as ->.
    destruct rest as [| c' rest']; [done |].
    apply Forall_cons in Hrest as [Hc' _]. simpl. by rewrite Hc'. }
  rewrite Hfirst.
  assert (Hsecond :
    is_dot c && match rest with
                | c' :: rest' => is_dot c' && at_element_end rest'
                | [] => false
                end = false).
  { destruct (is_dot c) eqn:Hd; [| done].
    apply Ascii.eqb_eq in Hd as ->.
    destruct rest as [| c' rest']; [done |].
    destruct (is_dot c') eqn:Hd'; [| done].
    apply Ascii.eqb_eq in Hd' as ->.
    destruct rest' as [| c'' rest'']; [done |].
    apply Forall_cons in Hrest as [_ Hrest].
    apply Forall_cons in Hrest as [Hc'' _]. simpl. by rewrite Hc''. }
  rewrite Hsecond. cbn [andb orb negb].
  rewrite clean_copy_element by done.
  destruct (length out =? 0)%nat; cbn [negb]; by destruct fuel.
Qed.

Lemma plain_name_chars name :
  plain_name name ->
  let l := String.list_ascii_of_string name in
  l ≠ [] ∧ l ≠ ["."%char] ∧ l ≠ ["."%char; "."%char] ∧
  Forall (λ c, IsPathSeparator c = false) l.
Proof.
  intros (Hnil & Hdot & Hdotdot & Hl). cbv zeta.
  assert (Hback : ∀ l, String.list_ascii_of_string name = l ->
            name = String.string_of_list_ascii l).
  { intros l <-. by rewrite String.string_of_list_ascii_of_string. }
  repeat split; [| | | done]; intros H%Hback; done.
Qed.

End destination_facts.

Section destination_claims.
Import Go Models Http Receive.

Lemma clean_after_uploads fuel (l : list ascii) :
  clean_loop (S (S (S fuel))) false
    ("u" :: "p" :: "l" :: "o" :: "a" :: "d" :: "s" :: "/" :: l)%char [] 0
  = clean_loop (S fuel) false l ["s"; "d"; "a"; "o"; "l"; "p"; "u"]%char 0.
Proof. reflexivity. Qed.

Lemma clean_after_uploads_parent fuel (l : list ascii) :
  clean_loop (S (S (S (S (S fuel))))) false
    ("u" :: "p" :: "l" :: "o" :: "a" :: "d" :: "s" :: "/"
     :: "." :: "." :: "/" :: l)%char [] 0
  = clean_loop (S fuel) false l [] 0.
Proof. reflexivity. Qed.

(** X1: for a file name that is a single path element (not empty, not
    [.] or [..], no separator) the destination of an upload is the file of
    that name in [uploads]. *)
Theorem Join_uploads_plain_name (name : string) :
  plain_name name -> Join "uploads" name = "uploads/" +:+ name.
Proof.
  intros Hplain.
  pose proof (plain_name_chars _ Hplain) as (H1 & H2 & H3 & H4).
  cbv zeta in *.
  destruct name as [| c0 n]; [by destruct Hplain |].
  unfold Join.
  change ("uploads" +:+ "/" +:+ String c0 n) with ("uploads/" +:+ String c0 n).
  unfold Clean. rewrite list_ascii_of_append.
  pose proof (String.string_of_list_ascii_of_string (String c0 n)) as Hback.
  revert H1 H2 H3 H4 Hback.
  generalize (String.list_ascii_of_string (String c0 n)).
  intros l H1 H2 H3 H4 Hback.
  cbn [String.list_ascii_of_string app].
  change (IsPathSeparator "u") with false. cbv iota. cbn [length].
  rewrite clean_after_uploads, clean_loop_last_element by done.
  cbn [length Nat.eqb].
  destruct (rev l ++ _) as [| x out] eqn:Hout.
  { apply app_eq_nil in Hout as [_ ?]. done. }
  rewrite <- Hout, rev_app_distr, rev_involutive.
  cbn [rev app String.string_of_list_ascii]. by rewrite Hback.
Qed.

Lemma Join_uploads_plain_name_witness :
  Join "uploads" "report.final.pdf" = "uploads/" +:+ "report.final.pdf".
Proof.
  apply Join_uploads_plain_name.
  repeat split; [done | done | done |]. repeat constructor.
Defined.

(** X2: a file name of the form [../x], with [x] a single path element,
    takes the destination out of [uploads]: it is [x], relative to the
    working directory of the receiver. *)
Theorem Join_uploads_parent_escapes (x : string) :
  plain_name x -> Join "uploads" ("../" +:+ x) = x.
Proof.
  intros Hplain.
  pose proof (plain_name_chars _ Hplain) as (H1 & H2 & H3 & H4).
  cbv zeta in *.
  unfold Join.
  change ("uploads" +:+ "/" +:+ "../" +:+ x) with ("uploads/../" +:+ x).
  unfold Clean. rewrite list_ascii_of_append.
  pose proof (String.string_of_list_ascii_of_string x) as Hback.
  revert H1 H2 H3 H4 Hback.
  generalize (String.list_ascii_of_string x). intros l H1 H2 H3 H4 Hback.
  cbn [String.list_ascii_of_string app].
  change (IsPathSeparator "u") with false. cbv iota. cbn [length].
  rewrite clean_after_uploads_parent, clean_loop_last_element by done.
  cbn [length Nat.eqb]. rewrite app_nil_r.
  destruct (rev l) as [| c out] eqn:Hout.
  { apply (f_equal (@rev ascii)) in Hout. rewrite rev_involutive in Hout.
    done. }
  by rewrite <- Hout, rev_involutive.
Qed.

Lemma Join_uploads_parent_escapes_witness :
  Join "uploads" ("../" +:+ "authorized_keys") = "authorized_keys".
Proof.
  apply Join_uploads_parent_escapes.
  repeat split; [done | done | done |]. repeat constructor.
Defined.

End destination_claims.

(** ** The upload endpoint: what it leaves behind *)
Section ReceiveHandler_frame_facts.
Import Go Models Http Receive.


(** Chunks that are read and written without a failure are appended, and
    the loop goes on with what follows them. *)
Lemma chunk_loop_good_prefix env path pre : ∀ rest i (fs : filesystem) old,
  (∀ j, write_err env j = None) ->
  Forall good_chunk pre ->
  fs !! path = Some old ->
  chunk_loop env path i (pre ++ rest) fs
    = chunk_loop env path (i + length pre) rest
        (<[path := old ++ concat (rd_data <$> pre)]> fs).
Proof.
  induction pre as [| r pre IH]; intros rest i fs old Hw Hpre Hold.
  - simpl. rewrite Nat.add_0_r, app_nil_r. by rewrite insert_id.
  - apply Forall_cons in Hpre as [[Hdata Herr] Hpre].
    rewrite <- app_comm_cons, chunk_loop_cons, Hw.
    destruct (rd_err r) as [| | e]; [| | by destruct (Herr e)];
      (destruct (rd_data r) as [| b data] eqn:Hr; [done |]);
      (rewrite (IH rest (S i) _ (old ++ b :: data) Hw Hpre)
         by by apply file_append_lookup);
      unfold file_append; rewrite Hold, insert_insert_eq;
      rewrite fmap_cons, Hr; cbn [concat length];
      rewrite <- app_assoc, Nat.add_succ_r; reflexivity.
Qed.

Lemma delivered_good_prefix pre rest :
  Forall good_chunk pre ->
  delivered (pre ++ rest) = concat (rd_data <$> pre) ++ delivered rest.
Proof.
  induction pre as [| r pre IH]; intros Hpre; [done |].
  apply Forall_cons in Hpre as [[Hdata _] Hpre].
  rewrite <- app_comm_cons. cbn [delivered].
  destruct (rd_data r) as [| b data] eqn:Hr; [done |].
  rewrite fmap_cons, Hr, IH by done. cbn [concat]. by rewrite app_assoc.
Qed.

(** The names a handshake records: the loop leaves the entry of a file id
    that occurs once in the manifest at the name given there. *)
Lemma prepare_fold_names_in files : ∀ acc id info,
  NoDup files.*1 ->
  (id, info) ∈ files ->
  acc_names (fold_left prepare_file files acc) !! id = Some (FileName info).
Proof.
  induction files as [| [k v] files IH]; intros acc id info Hnd Hin.
  - by apply elem_of_nil in Hin.
  - rewrite fmap_cons in Hnd. apply NoDup_cons in Hnd as [Hk Hnd].
    apply elem_of_cons in Hin as [[= -> ->] | Hin]; cbn [fold_left].
    + rewrite prepare_fold_names by done. apply lookup_insert_eq.
    + by apply IH.
Qed.

End ReceiveHandler_frame_facts.

Section ReceiveHandler_frame_claims.
Import Go Models Http Receive.

(** X3: a handshake records, for every file id of its manifest, the file
    name given there, replacing what an earlier handshake recorded for that
    id, and leaves the names of all other ids as they were. *)
Theorem handshake_records_file_names
    (a : int_size) (st : server) (clip : clipboard)
    (req : PrepareReceiveRequest) :
  NoDup (Req_Files req).*1 ->
  let st' := (PrepareReceive a st clip (Some req)).1.1 in
  (∀ id info, (id, info) ∈ Req_Files req ->
     fileNames st' !! id = Some (FileName info)) ∧
  (∀ id, id ∉ (Req_Files req).*1 -> fileNames st' !! id = fileNames st !! id).
Proof.
  intros Hnd st'. subst st'. cbn [PrepareReceive fst snd fileNames].
  unfold prepare_files. split.
  - intros id info Hin. by apply prepare_fold_names_in.
  - intros id Hid. by rewrite prepare_fold_names.
Qed.

Lemma handshake_records_file_names_witness :
  fileNames (PrepareReceive Int64 initial [] (Some manifest_a)).1.1 !! "a.txt"
    = Some "a.txt".
Proof.
  refine (proj1 (handshake_records_file_names Int64 initial [] manifest_a _)
            "a.txt" info_a _).
  - apply NoDup_singleton.
  - by left.
Defined.

(** X4: round trip.  After a handshake that announces a file, an upload
    for its id with any non-empty session id and token, whose body arrives
    in non-empty chunks without a failure and which the operating system
    lets through, is answered 200, and afterwards the file named in the
    manifest holds exactly the bytes of the body, whatever was at that path
    and whatever an earlier handshake had recorded for the id; all other
    files are as they were. *)
Theorem handshake_then_upload_round_trip
    (a : int_size) (st : server) (clip : clipboard)
    (req : PrepareReceiveRequest) (info : FileInfo)
    (env : recv_env) (fs : filesystem) (r : upload_request) :
  NoDup (Req_Files req).*1 ->
  (fileId r, info) ∈ Req_Files req ->
  sessionId r ≠ "" -> fileId r ≠ "" -> token r ≠ "" ->
  os_obliging env ->
  Forall good_chunk (Body r) ->
  ReceiveHandler env TakeDone (PrepareReceive a st clip (Some req)).1.1 fs r
    = (<[Join "uploads" (FileName info) := concat (rd_data <$> Body r)]> fs,
       WriteHeader StatusOK).
Proof.
  intros Hnd Hin Hs Hf Ht (Hmk & Hcr & Hw) Hbody.
  pose proof (proj1 (handshake_records_file_names a st clip req Hnd)
                _ _ Hin) as Hname.
  rewrite (ReceiveHandler_accepted env TakeDone _ fs r (FileName info))
    by done.
  cbv zeta. cbn [consumed].
  pose proof (chunk_loop_good_prefix env (Join "uploads" (FileName info))
                (Body r) [] 0 (Create (Join "uploads" (FileName info)) fs) []
                Hw Hbody (lookup_insert_eq _ _ _)) as Hloop.
  rewrite app_nil_r in Hloop. rewrite Hloop.
  cbn [chunk_loop fst snd app]. unfold Create.
  by rewrite insert_insert_eq.
Qed.

Lemma handshake_then_upload_round_trip_witness :
  ReceiveHandler os_ok TakeDone
      (PrepareReceive Int64 initial [] (Some manifest_a)).1.1
      earlier_transfer (upload_a "session-9" "anything" two_chunks)
    = (<[Join "uploads" (FileName info_a) := ["a"; "b"; "c"]%byte]>
         earlier_transfer,
       WriteHeader StatusOK).
Proof.
  apply (handshake_then_upload_round_trip Int64 initial [] manifest_a info_a
           os_ok earlier_transfer
           (upload_a "session-9" "anything" two_chunks)).
  - apply NoDup_singleton.
  - by left.
  - done.
  - done.
  - done.
  - by repeat split.
  - repeat constructor; done.
Defined.


(** X6: the upload endpoint answers 400, 500 or 200, or nothing at all
    when the request is cancelled: never 403 or 409, the two other statuses
    that [uploadFile] knows a message for. *)
Theorem ReceiveHandler_statuses
    (env : recv_env) (s : schedule) (st : server) (fs : filesystem)
    (r : upload_request) :
  let code := status (ReceiveHandler env s st fs r).2 in
  (code = Some StatusBadRequest ∨ code = Some StatusInternalServerError ∨
   code = Some StatusOK ∨ (code = None ∧ s ≠ TakeDone)) ∧
  code ≠ Some 403 ∧ code ≠ Some 409.
Proof.
  cbv zeta. unfold ReceiveHandler.
  destruct (_ || _); [by auto |].
  destruct (fileNames st !! fileId r); [| by auto].
  destruct (mkdirall_err env); [by auto |].
  destruct (create_err env); [by auto |].
  destruct (chunk_loop _ _ _ _ _) as [fs1 [err |]], s; cbn; by auto 6.
Qed.

(** X7: an empty read that is not a failure ends the transfer as a
    success: when the body arrives in non-empty chunks followed by a read
    of no bytes, the answer is 200 and the destination holds the chunks
    before the empty read, whatever would have followed it. *)
Theorem empty_read_ends_transfer
    (env : recv_env) (st : server) (fs : filesystem) (r : upload_request)
    (fileName : string) (pre post : list read_result) (r0 : read_result) :
  accepted env st r fileName ->
  (∀ i, write_err env i = None) ->
  Body r = pre ++ r0 :: post ->
  Forall good_chunk pre ->
  rd_data r0 = [] -> (∀ e, rd_err r0 ≠ ReadFailed e) ->
  ReceiveHandler env TakeDone st fs r
    = (<[Join "uploads" fileName := concat (rd_data <$> pre)]> fs,
       WriteHeader StatusOK).
Proof.
  intros Hacc Hw Hbody Hpre Hempty Herr.
  rewrite (ReceiveHandler_accepted env TakeDone st fs r fileName Hacc).
  cbv zeta. cbn [consumed]. rewrite Hbody.
  rewrite (chunk_loop_good_prefix env (Join "uploads" fileName) pre
             (r0 :: post) 0 (Create (Join "uploads" fileName) fs) []
             Hw Hpre (lookup_insert_eq _ _ _)).
  rewrite chunk_loop_cons, Hempty.
  destruct (rd_err r0) as [| | e]; [| | by destruct (Herr e)];
    cbn [fst snd app]; unfold Create; by rewrite insert_insert_eq.
Qed.

Lemma empty_read_ends_transfer_witness :
  ReceiveHandler os_ok TakeDone server_a ∅
      (upload_a "session-1" "token-a.txt"
         (two_chunks ++ {| rd_data := []; rd_err := ReadOk |} :: two_chunks))
    = (<[Join "uploads" "a.txt" := concat (rd_data <$> two_chunks)]> ∅,
       WriteHeader StatusOK).
Proof.
  apply (empty_read_ends_transfer os_ok server_a ∅ _ "a.txt" two_chunks
           two_chunks {| rd_data := []; rd_err := ReadOk |}).
  - by apply upload_a_accepted.
  - done.
  - reflexivity.
  - repeat constructor; done.
  - reflexivity.
  - done.
Defined.

End ReceiveHandler_frame_claims.

(** ** The tables of the handshake server over a process run *)
Section server_state_facts.
Import Go Models Http Receive.

Lemma prepare_fold_names_stay files : ∀ acc id,
  is_Some (acc_names acc !! id) ->
  is_Some (acc_names (fold_left prepare_file files acc) !! id).
Proof.
  induction files as [| [k v] files IH]; intros acc id Hid; [done |].
  cbn [fold_left]. apply IH. cbn [prepare_file acc_names fst snd].
  destruct (decide (k = id)) as [-> | Hne].
  - rewrite lookup_insert_eq. eauto.
  - by rewrite lookup_insert_ne.
Qed.

Lemma after_requests_snoc a reqs req st :
  after_requests a (reqs ++ [req]) st
    = (PrepareReceive a (after_requests a reqs st) [] req).1.1.
Proof. unfold after_requests. by rewrite fold_left_app. Qed.

End server_state_facts.

Section server_state_claims.
Import Go Models Http Receive.

(** X8: the file name table only grows, and an upload changes nothing in
    it: once a handshake has announced a file id, every later upload
    request for that id with a non-empty session id and token passes the
    checks of the handler (it is not answered 400), however many handshakes
    and whatever requests came in between.  Nothing expires and nothing is
    used up. *)
Theorem announced_id_stays_uploadable
    (a : int_size) (st : server)
    (reqs : list (option PrepareReceiveRequest))
    (env : recv_env) (s : schedule) (fs : filesystem) (r : upload_request) :
  is_Some (fileNames st !! fileId r) ->
  sessionId r ≠ "" -> fileId r ≠ "" -> token r ≠ "" ->
  is_Some (fileNames (after_requests a reqs st) !! fileId r) ∧
  status (ReceiveHandler env s (after_requests a reqs st) fs r).2
    ≠ Some StatusBadRequest.
Proof.
  intros Hid Hs Hf Ht.
  assert (Hstay : is_Some (fileNames (after_requests a reqs st) !! fileId r)).
  { induction reqs as [| req reqs IH] using rev_ind; [done |].
    rewrite after_requests_snoc. destruct req as [req |]; [| done].
    cbn [PrepareReceive fst snd fileNames]. unfold prepare_files.
    by apply prepare_fold_names_stay. }
  split; [done |].
  destruct Hstay as [fileName Hname]. unfold ReceiveHandler.
  rewrite params_checked, Hname by done.
  destruct (mkdirall_err env); [done |].
  destruct (create_err env); [done |].
  destruct (chunk_loop _ _ _ _ _) as [fs1 [err |]], s; done.
Qed.

Lemma announced_id_stays_uploadable_witness :
  status (ReceiveHandler os_ok TakeDone
            (after_requests Int64 [None; Some manifest_empty_note] server_a)
            ∅ (upload_a "session-1" "token-a.txt" two_chunks)).2
    ≠ Some StatusBadRequest.
Proof.
  refine (proj2 (announced_id_stays_uploadable Int64 server_a
                   [None; Some manifest_empty_note] os_ok TakeDone ∅
                   (upload_a "session-1" "token-a.txt" two_chunks) _ _ _ _));
    [by eexists | done | done | done].
Defined.

(** X9: a handshake whose body does not decode allocates no session id:
    after any sequence of handshake requests, the counter is the number of
    those that decoded (as an [int], so modulo its range). *)
Theorem counter_counts_decoded_handshakes
    (a : int_size) (reqs : list (option PrepareReceiveRequest)) :
  sessionIDCounter (after_requests a reqs initial)
    = wrap_int a (Z.of_nat (length (filter is_Some reqs))).
Proof.
  induction reqs as [| req reqs IH] using rev_ind.
  - by destruct a.
  - rewrite after_requests_snoc, filter_app, length_app.
    destruct req as [req |].
    + cbn [PrepareReceive fst snd sessionIDCounter]. rewrite IH.
      unfold next_counter. rewrite wrap_int_succ.
      rewrite filter_cons_True by eauto. cbn [filter list_filter length].
      f_equal. lia.
    + cbn [PrepareReceive fst snd]. rewrite IH.
      rewrite filter_cons_False by (by intros [? ?]).
      cbn [filter list_filter length]. by rewrite Nat.add_0_r.
Qed.

End server_state_claims.

(** ** The lock around the session counter *)
Section lock_facts.
Import Go Receive Sessions.

Lemma count_calls_none f (l : list call) :
  count_calls f l = 0%nat -> ∀ i p, l !! i = Some p -> f p = false.
Proof.
  induction l as [| x l IH]; intros Hcount [| i] p Hi; simplify_eq/=.
  - by destruct (f p).
  - eapply IH; [| done]. destruct (f x); [done | by simpl in Hcount].
Qed.

Lemma count_calls_some f (l : list call) :
  (0 < count_calls f l)%nat -> ∃ i p, l !! i = Some p ∧ f p = true.
Proof.
  induction l as [| x l IH]; simpl; intros Hcount; [lia |].
  destruct (f x) eqn:Hx.
  - by exists 0%nat, x.
  - destruct IH as (i & p & Hi & Hp); [done |]. by exists (S i), p.
Qed.

Lemma count_calls_one f (l : list call) :
  (count_calls f l <= 1)%nat ->
  ∀ i j p q, l !! i = Some p -> l !! j = Some q ->
             f p = true -> f q = true -> i = j.
Proof.
  induction l as [| x l IH]; intros Hcount [| i] [| j] p q Hi Hj Hp Hq;
    simplify_eq/=; [done | | | f_equal].
  - rewrite Hp in Hcount.
    assert (count_calls f l = 0%nat) as Hnone by lia.
    by rewrite (count_calls_none f l Hnone _ _ Hj) in Hq.
  - rewrite Hq in Hcount.
    assert (count_calls f l = 0%nat) as Hnone by lia.
    by rewrite (count_calls_none f l Hnone _ _ Hi) in Hp.
  - eapply IH; eauto. destruct (f x); lia.
Qed.

End lock_facts.

Section lock_claims.
Import Go Receive Sessions.

(** X10: mutual exclusion.  In every configuration that concurrent
    handshakes can reach, at most one call is between
    [sessionMutex.Lock()] and [sessionMutex.Unlock()], and the mutex is
    held exactly when one is. *)
Theorem critical_section_is_exclusive
    (a : int_size) (n : nat) (c : config) :
  reachable a n c ->
  (∀ i j p q, calls c !! i = Some p -> calls c !! j = Some q ->
     in_critical_section p = true -> in_critical_section q = true -> i = j) ∧
  (locked c = true ↔
     ∃ i p, calls c !! i = Some p ∧ in_critical_section p = true).
Proof.
  intros Hrun.
  destruct (invariant_reachable _ _ _ Hrun) as [_ Hmutex _ _ _].
  split; [| split].
  - apply count_calls_one. rewrite Hmutex. destruct (locked c); lia.
  - intros Hlocked. rewrite Hlocked in Hmutex.
    apply count_calls_some. lia.
  - intros (i & p & Hi & Hp). destruct (locked c); [done |].
    by rewrite (count_calls_none _ _ Hmutex _ _ Hi) in Hp.
Qed.

Lemma critical_section_is_exclusive_witness :
  locked two_handshakes_done = true ↔
    ∃ i p, calls two_handshakes_done !! i = Some p ∧
           in_critical_section p = true.
Proof.
  exact (proj2 (critical_section_is_exclusive Int64 2 two_handshakes_done
                  two_handshakes_reachable)).
Defined.

(** X11: no deadlock.  In every reachable configuration in which some
    handshake has not left the critical section for good, some handshake
    can take a step. *)
Theorem handshakes_never_deadlock
    (a : int_size) (n : nat) (c : config) (i : nat) (p : call) :
  reachable a n c ->
  calls c !! i = Some p -> unfinished p = true ->
  ∃ c', step a c c'.
Proof.
  intros Hrun Hi Hp.
  destruct (invariant_reachable _ _ _ Hrun) as [_ Hmutex _ _ _].
  destruct (locked c) eqn:Hlocked.
  - destruct (count_calls_some in_critical_section (calls c))
      as (j & q & Hj & Hq); [lia |].
    destruct q as [| | | sessionID | sessionID]; try done.
    + eexists. by apply (step_increment _ _ j).
    + eexists. by apply (step_sprintf _ _ j).
    + eexists. by apply (step_unlock _ _ j sessionID).
  - pose proof (count_calls_none _ _ Hmutex _ _ Hi) as Hout.
    destruct p as [| | | sessionID | sessionID]; try done.
    eexists. by apply (step_lock _ _ i).
Qed.

Lemma handshakes_never_deadlock_witness : ∃ c', step Int64 (start 2) c'.
Proof.
  apply (handshakes_never_deadlock Int64 2 (start 2) 0 AtLock).
  - apply rtc_refl.
  - reflexivity.
  - reflexivity.
Defined.

(** X12: when all [n] handshakes of a run are through, exactly [n] session
    ids have been issued, one to each call, and the counter stands at [n]
    (as an [int]). *)
Theorem finished_run_has_issued_all
    (a : int_size) (n : nat) (c : config) :
  reachable a n c ->
  (∀ i p, calls c !! i = Some p -> unfinished p = false) ->
  length (issued c) = n ∧
  counter c = wrap_int a (Z.of_nat n) ∧
  locked c = false.
Proof.
  intros Hrun Hdone.
  destruct (invariant_reachable _ _ _ Hrun)
    as [Hcalls Hmutex Hcounter Hissued Hholds].
  assert (Hall : ∀ f, (∀ p, unfinished p = false -> f p = false) ->
            count_calls f (calls c) = 0%nat).
  { intros f Hf. revert Hdone. generalize (calls c). intros l.
    induction l as [| p l IH]; intros Hl; [done |].
    simpl. rewrite (Hf p) by apply (Hl 0%nat p eq_refl).
    apply IH. intros i q Hi. by apply (Hl (S i)). }
  assert (Hlen : length (omap holds (calls c)) = length (calls c)).
  { revert Hdone. generalize (calls c). intros l.
    induction l as [| p l IH]; intros Hl; [done |].
    pose proof (Hl 0%nat p eq_refl) as Hp.
    destruct p as [| | | sessionID | sessionID]; try done.
    change (omap holds (Past sessionID :: l))
      with (sessionID :: omap holds l).
    simpl. f_equal. apply IH. intros i q Hi. by apply (Hl (S i)). }
  assert (Hn : length (issued c) = n).
  { rewrite <- Hcalls, <- Hlen, Hholds. by rewrite length_fmap. }
  split; [done |]. split.
  - rewrite Hcounter, Hn, Hall by (by intros []). f_equal. lia.
  - rewrite Hall in Hmutex by (by intros []). by destruct (locked c).
Qed.

Lemma finished_run_has_issued_all_witness :
  length (issued two_handshakes_done) = 2%nat ∧
  counter two_handshakes_done = wrap_int Int64 (Z.of_nat 2) ∧
  locked two_handshakes_done = false.
Proof.
  apply (finished_run_has_issued_all Int64 2 two_handshakes_done).
  - exact two_handshakes_reachable.
  - intros [| [| i]] p Hp; simplify_eq/=; done.
Defined.

End lock_claims.

(** ** The manifest builder: when it succeeds and what it holds *)
Section manifest_facts.
Import Go Models Send.

Lemma manifest_visit_ok_iff sha256 files v :
  (∃ files', manifest_visit sha256 files v = (files', None))
  ↔ visit_ok sha256 v.
Proof.
  unfold manifest_visit, visit_ok.
  destruct (v_err v) as [e |].
  { split; [by intros [? ?] | by intros [? _]]. }
  destruct (v_isDir v).
  { split; [done | eauto]. }
  destruct (sha256 (v_path v)) as [e | h].
  - split; [by intros [? ?] |]. intros [_ H].
    by destruct (H eq_refl) as [h Hh].
  - split; eauto.
Qed.

Lemma manifest_walk_ok_iff sha256 vs : ∀ files,
  (∃ files', Walk (manifest_visit sha256) vs files = (files', None))
  ↔ Forall (visit_ok sha256) vs.
Proof.
  induction vs as [| v vs IH]; intros files.
  - split; [done | simpl; eauto].
  - rewrite Forall_cons, <- (manifest_visit_ok_iff sha256 files v). simpl.
    destruct (manifest_visit sha256 files v) as [files1 [e |]].
    + split; [by intros [? ?] | by intros [[? ?] _]].
    + rewrite (IH files1). split; [eauto | tauto].
Qed.

Lemma manifest_walk_dom sha256 vs : ∀ files files',
  Walk (manifest_visit sha256) vs files = (files', None) ->
  dom files' = dom files ∪ list_to_set (file_names vs).
Proof.
  induction vs as [| v vs IH]; intros files files' Hwalk.
  - simpl in Hwalk. injection Hwalk as <-. unfold file_names. simpl.
    by rewrite (right_id_L ∅ (∪)).
  - simpl in Hwalk.
    destruct (manifest_visit sha256 files v) as [files1 [e |]] eqn:Hv;
      [discriminate |].
    rewrite (IH _ _ Hwalk). unfold file_names. simpl. unfold is_file at 2.
    apply manifest_visit_ok in Hv
      as [(_ & -> & ->) | (m & (_ & -> & _) & ->)]; simpl.
    + done.
    + rewrite dom_insert_L, (assoc_L (∪)).
      by rewrite (comm_L (∪) (dom files)).
Qed.

Lemma build_manifest_dom sha256 vs files :
  build_manifest sha256 vs = inr files ->
  dom files = list_to_set (file_names vs).
Proof.
  unfold build_manifest.
  destruct (Walk (manifest_visit sha256) vs ∅) as [files' [e |]] eqn:Hwalk;
    [discriminate |].
  intros [= ->].
  rewrite (manifest_walk_dom _ _ _ _ Hwalk), dom_empty_L.
  by rewrite (left_id_L ∅ (∪)).
Qed.

End manifest_facts.

Section manifest_extent_claims.
Import Go Models Send.

(** X13: the manifest builder returns a manifest exactly when no visit of
    the walk carries an error and the hash of every regular file can be
    computed; otherwise it returns an error and no manifest at all. *)
Theorem build_manifest_all_or_nothing
    (sha256 : string -> error + string) (vs : list visit) :
  ((∃ files, build_manifest sha256 vs = inr files)
   ↔ Forall (visit_ok sha256) vs) ∧
  ((∃ e, build_manifest sha256 vs = inl ("error walking the path: " +:+ e))
   ↔ ¬ Forall (visit_ok sha256) vs).
Proof.
  pose proof (manifest_walk_ok_iff sha256 vs ∅) as Hiff.
  unfold build_manifest.
  destruct (Walk (manifest_visit sha256) vs ∅) as [files [e |]].
  - split; split.
    + by intros [? ?].
    + intros H. apply Hiff in H as [? ?]. done.
    + intros _ H. apply Hiff in H as [? ?]. done.
    + eauto.
  - split; split.
    + intros _. apply Hiff. eauto.
    + eauto.
    + by intros [? ?].
    + intros H. destruct H. apply Hiff. eauto.
Qed.

(** X14: a manifest has an entry for exactly the names of the regular
    files of the walk (directories are not recorded); when no two of these
    files have the same name, it has as many entries as there are files. *)
Theorem manifest_covers_files
    (sha256 : string -> error + string) (vs : list visit)
    (files : gmap string FileInfo) :
  build_manifest sha256 vs = inr files ->
  dom files = list_to_set (file_names vs) ∧
  (NoDup (file_names vs) -> size files = length (file_names vs)).
Proof.
  intros Hbuild. pose proof (build_manifest_dom _ _ _ Hbuild) as Hdom.
  split; [done |].
  intros Hnd. rewrite <- size_dom, Hdom. by apply size_list_to_set.
Qed.

Lemma manifest_covers_files_witness :
  dom colliding_manifest = list_to_set (file_names colliding_walk).
Proof.
  exact (proj1 (manifest_covers_files sha_of_path colliding_walk
                  colliding_manifest eq_refl)).
Defined.

End manifest_extent_claims.

(** ** The uploader: when a file counts as sent *)
Section uploadFile_claims.
Import Go Models Send.


Lemma upload_message_inj (x y : Z) :
  "file upload failed: received status code " +:+ fmt_d x
    = "file upload failed: received status code " +:+ fmt_d y ->
  x = y.
Proof.
  intros H. apply (inj _) in H. unfold fmt_d in H. by apply (inj _) in H.
Qed.

(** X16: the error that [uploadFile] makes from a status code tells the
    codes apart: 400, 403, 409 and 500 have a message of their own, and the
    message for any other code carries the code. *)
Theorem upload_status_errors_differ (x y : Z) :
  x ≠ y -> upload_status_error x ≠ upload_status_error y.
Proof.
  unfold upload_status_error. intros Hne Heq.
  destruct (Z.eqb_spec x 400), (Z.eqb_spec x 403), (Z.eqb_spec x 409),
           (Z.eqb_spec x 500), (Z.eqb_spec y 400), (Z.eqb_spec y 403),
           (Z.eqb_spec y 409), (Z.eqb_spec y 500);
    try congruence; try lia;
    try (cbv [String.append] in Heq; discriminate Heq).
  by apply Hne, upload_message_inj.
Qed.

Lemma upload_status_errors_differ_witness :
  upload_status_error 404 ≠ upload_status_error 409.
Proof.
  apply upload_status_errors_differ. lia.
Defined.

End uploadFile_claims.

Section SendFile_success_facts.
Import Go Models Send.



End SendFile_success_facts.

Section SendFile_success_claims.
Import Go Models Http Receive Send.





End SendFile_success_claims.

(** ** The browser upload endpoint *)
Section NormalSendHandler_facts.
Import Go Http Receive Upload.

(** The file system after the parts of a list have been saved one after
    the other. *)
Lemma save_part_ok dir f rest (fs : filesystem) :
  part_ok f ->
  save_parts dir (f :: rest) fs
    = save_parts dir rest (<[part_path dir f := part_data f]> fs).
Proof.
  intros (Hopen & Hmk & Hcr & Hcopy). cbn [save_parts].
  rewrite Hopen, Hmk, Hcr, Hcopy. unfold file_append, Create, part_path.
  by rewrite lookup_insert_eq, insert_insert_eq.
Qed.

Lemma save_parts_app dir pre : ∀ rest (fs : filesystem),
  Forall part_ok pre ->
  save_parts dir (pre ++ rest) fs
    = save_parts dir rest (save_parts dir pre fs).1.
Proof.
  induction pre as [| f pre IH]; intros rest fs Hpre; [done |].
  apply Forall_cons in Hpre as [Hf Hpre].
  rewrite <- app_comm_cons, !save_part_ok by done. by apply IH.
Qed.

Lemma save_parts_all_ok dir files : ∀ (fs : filesystem),
  Forall part_ok files -> (save_parts dir files fs).2 = None.
Proof.
  induction files as [| f files IH]; intros fs Hfiles; [done |].
  apply Forall_cons in Hfiles as [Hf Hfiles].
  rewrite save_part_ok by done. by apply IH.
Qed.

(** A part that cannot be saved ends the loop with a 500; only its own
    destination can differ from what was there. *)
Lemma save_part_fails dir f rest (fs : filesystem) :
  ¬ part_ok f ->
  ∃ failure,
    (save_parts dir (f :: rest) fs).2 = Some failure ∧
    status failure = Some StatusInternalServerError ∧
    ∀ p, p ≠ part_path dir f ->
         (save_parts dir (f :: rest) fs).1 !! p = fs !! p.
Proof.
  intros Hbad. cbn [save_parts]. unfold part_ok in Hbad.
  destruct (part_open_err f); [by eauto |].
  destruct (part_mkdir_err f); [by eauto |].
  destruct (part_create_err f); [by eauto |].
  destruct (part_copy_err f) as [[k e] |]; [| by destruct Hbad].
  eexists. split; [reflexivity |]. split; [reflexivity |].
  intros p Hp. cbn [fst]. unfold file_append, Create.
  rewrite lookup_insert_eq. fold (part_path dir f).
  rewrite insert_insert_eq. by rewrite lookup_insert_ne.
Qed.

Lemma save_parts_outcome dir files : ∀ (fs : filesystem),
  match (save_parts dir files fs).2 with
  | None => Forall part_ok files
  | Some failure =>
      status failure = Some StatusInternalServerError ∧
      ¬ Forall part_ok files
  end.
Proof.
  induction files as [| f files IH]; intros fs; [by constructor |].
  assert (Hdec : part_ok f ∨ ¬ part_ok f).
  { unfold part_ok.
    destruct (part_open_err f), (part_mkdir_err f), (part_create_err f),
             (part_copy_err f); first [by left | right; by intros (? & ? & ? & ?)]. }
  destruct Hdec as [Hok | Hbad].
  - rewrite save_part_ok by done.
    specialize (IH (<[part_path dir f := part_data f]> fs)).
    destruct (save_parts dir files _).2.
    + destruct IH as [? Hnot]. split; [done |].
      intros Hall. apply Hnot. by apply Forall_cons in Hall as [_ ?].
    + by constructor.
  - destruct (save_part_fails dir f files fs Hbad) as (failure & -> & ? & _).
    split; [done |]. intros Hall. apply Hbad.
    by apply Forall_cons in Hall as [? _].
Qed.

(** A part that is saved, and after which no part with the same
    destination comes, is there in the end; a path that is no destination
    is not touched. *)
Lemma save_parts_last dir pre f post (fs : filesystem) :
  Forall part_ok (pre ++ f :: post) ->
  (∀ g, g ∈ post -> part_path dir g ≠ part_path dir f) ->
  (save_parts dir (pre ++ f :: post) fs).1 !! part_path dir f
    = Some (part_data f).
Proof.
  intros Hall Hpost.
  apply Forall_app in Hall as [Hpre Hall].
  apply Forall_cons in Hall as [Hf Hall].
  rewrite save_parts_app, save_part_ok by done.
  generalize (save_parts dir pre fs).1. intros fs0.
  assert (Hkeep : ∀ (fs1 : filesystem) d,
            fs1 !! part_path dir f = Some d ->
            (save_parts dir post fs1).1 !! part_path dir f = Some d).
  { clear Hpre Hf fs0. induction post as [| g post IH]; intros fs1 d Hd;
      [done |].
    apply Forall_cons in Hall as [Hg Hall].
    rewrite save_part_ok by done. apply IH; [done | |].
    - intros h Hh. apply Hpost. by right.
    - rewrite lookup_insert_ne; [done |]. apply Hpost. by left. }
  apply Hkeep, lookup_insert_eq.
Qed.

Lemma save_parts_other dir files : ∀ (fs : filesystem) p,
  Forall part_ok files ->
  (∀ g, g ∈ files -> part_path dir g ≠ p) ->
  (save_parts dir files fs).1 !! p = fs !! p.
Proof.
  induction files as [| f files IH]; intros fs p Hall Hp; [done |].
  apply Forall_cons in Hall as [Hf Hall].
  rewrite save_part_ok by done. rewrite IH; [| done |].
  - rewrite lookup_insert_ne; [done |]. apply Hp. by left.
  - intros g Hg. apply Hp. by right.
Qed.

Lemma NormalSendHandler_unfold f mkdir_err (fs : filesystem) :
  form_files f ≠ [] ->
  NormalSendHandler (inr f) mkdir_err fs =
    match mkdir_err with
    | Some e =>
        (fs, Error ("Failed to create upload directory: " +:+ e)
                   StatusInternalServerError)
    | None =>
        match save_parts (upload_dir f) (form_files f) fs with
        | (fs', Some failure) => (fs', failure)
        | (fs', None) =>
            (fs',
             {| status := Some StatusCreated;
                content_type := None;
                payload :=
                  Text ("Files uploaded successfully, total "
                        +:+ fmt_d (Z.of_nat (length (form_files f)))
                        +:+ " files, uploaded to directory: "
                        +:+ upload_dir f +:+ newline) |})
        end
    end.
Proof.
  intros Hfiles. unfold NormalSendHandler, upload_dir.
  destruct (form_files f) as [| g files]; [done |]. reflexivity.
Qed.

End NormalSendHandler_facts.

Section NormalSendHandler_claims.
Import Go Http Receive Upload.

(** X19: when the form parses, has at least one part, the upload
    directory can be made and every part can be saved, the browser endpoint
    answers 201 with the number of parts and the directory in its message;
    every part after which no part with the same destination comes is then
    stored, with its bytes, under its file name in the upload directory
    ([./uploads], or the directory of the given name in it), and a path
    that is no destination of a part is as it was. *)
Theorem NormalSendHandler_saves_every_part
    (f : form) (fs : filesystem) :
  form_files f ≠ [] ->
  Forall part_ok (form_files f) ->
  let out := NormalSendHandler (inr f) None fs in
  out.2 = {| status := Some StatusCreated;
             content_type := None;
             payload :=
               Text ("Files uploaded successfully, total "
                     +:+ fmt_d (Z.of_nat (length (form_files f)))
                     +:+ " files, uploaded to directory: "
                     +:+ upload_dir f +:+ newline) |} ∧
  (∀ pre g post,
     form_files f = pre ++ g :: post ->
     (∀ h, h ∈ post -> part_path (upload_dir f) h ≠ part_path (upload_dir f) g) ->
     out.1 !! part_path (upload_dir f) g = Some (part_data g)) ∧
  (∀ p, (∀ g, g ∈ form_files f -> part_path (upload_dir f) g ≠ p) ->
        out.1 !! p = fs !! p).
Proof.
  intros Hfiles Hall out. subst out.
  rewrite NormalSendHandler_unfold by done.
  pose proof (save_parts_all_ok (upload_dir f) (form_files f) fs Hall) as Hok.
  destruct (save_parts (upload_dir f) (form_files f) fs)
    as [fs' [failure |]] eqn:Hsave; [done |].
  split; [done |]. cbn [fst]. split.
  - intros pre g post Hsplit Hpost.
    change fs' with (fs', @None response).1. rewrite <- Hsave, Hsplit.
    apply save_parts_last; [by rewrite <- Hsplit | done].
  - intros p Hp. change fs' with (fs', @None response).1. rewrite <- Hsave.
    by apply save_parts_other.
Qed.

(** X20: the browser endpoint does not undo what it has saved.  When a
    part cannot be saved after others have been, the answer is 500, the
    parts after it are not looked at, and the parts saved before it stay:
    each of them after which none with the same destination was saved, and
    whose destination is not that of the failing part, is on disk with its
    bytes. *)
Theorem NormalSendHandler_keeps_what_it_saved
    (f : form) (fs : filesystem) (pre post : list part) (g : part) :
  form_files f = pre ++ g :: post ->
  Forall part_ok pre ->
  ¬ part_ok g ->
  let out := NormalSendHandler (inr f) None fs in
  status out.2 = Some StatusInternalServerError ∧
  out = NormalSendHandler
          (inr {| directoryName := directoryName f;
                  form_files := pre ++ [g] |}) None fs ∧
  (∀ pre1 h pre2,
     pre = pre1 ++ h :: pre2 ->
     (∀ k, k ∈ pre2 -> part_path (upload_dir f) k ≠ part_path (upload_dir f) h) ->
     part_path (upload_dir f) h ≠ part_path (upload_dir f) g ->
     out.1 !! part_path (upload_dir f) h = Some (part_data h)).
Proof.
  intros Hsplit Hpre Hbad out. subst out.
  assert (Hne : form_files f ≠ []).
  { rewrite Hsplit. by destruct pre. }
  rewrite !NormalSendHandler_unfold by (try done; by destruct pre).
  change (upload_dir {| directoryName := directoryName f;
                        form_files := pre ++ [g] |})
    with (upload_dir f).
  cbn [form_files]. rewrite Hsplit, !save_parts_app by done.
  set (saved := (save_parts (upload_dir f) pre fs).1).
  destruct (save_part_fails (upload_dir f) g post saved Hbad)
    as (failure & Hfail & Hstatus & Hother).
  assert (Hsame : save_parts (upload_dir f) (g :: post) saved
                  = save_parts (upload_dir f) [g] saved).
  { cbn [save_parts]. unfold part_ok in Hbad.
    destruct (part_open_err g); [done |].
    destruct (part_mkdir_err g); [done |].
    destruct (part_create_err g); [done |].
    destruct (part_copy_err g) as [[k e] |]; [done | by destruct Hbad]. }
  rewrite <- Hsame.
  destruct (save_parts (upload_dir f) (g :: post) saved)
    as [fs' [failure' |]] eqn:Hsave; [| done].
  cbn [fst snd] in *. injection Hfail as ->.
  split; [done |]. split; [done |].
  intros pre1 h pre2 Hpre1 Hlater Hgh.
  rewrite Hother by done. subst saved. rewrite Hpre1.
  apply save_parts_last; [by rewrite <- Hpre1 | done].
Qed.

(** X21: the browser endpoint answers 201, 400 or 500.  It answers 201
    exactly when the form parses, has a part, the upload directory can be
    made and every part can be saved; it answers 400 exactly when the form
    does not parse or has no part, and then leaves the file system as it
    was. *)
Theorem NormalSendHandler_statuses
    (parsed : error + form) (mkdir_err : option error) (fs : filesystem) :
  let out := NormalSendHandler parsed mkdir_err fs in
  (status out.2 = Some StatusCreated ↔
     ∃ f, parsed = inr f ∧ form_files f ≠ [] ∧ mkdir_err = None ∧
          Forall part_ok (form_files f)) ∧
  (status out.2 = Some StatusBadRequest ↔
     (∃ e, parsed = inl e) ∨ (∃ f, parsed = inr f ∧ form_files f = [])) ∧
  (status out.2 = Some StatusBadRequest -> out.1 = fs) ∧
  (status out.2 = Some StatusCreated ∨ status out.2 = Some StatusBadRequest ∨
   status out.2 = Some StatusInternalServerError).
Proof.
  cbv zeta. destruct parsed as [e | f].
  { cbn. split; [| split; [| split]]; [| | done | by auto].
    - split; [done | by intros (? & ? & _)].
    - split; [eauto | done]. }
  destruct (form_files f) as [| g files] eqn:Hfiles.
  { unfold NormalSendHandler. rewrite Hfiles. cbn.
    split; [| split; [| split]]; [| | done | by auto].
    - split; [done |]. intros (f' & [= <-] & Hne & _). by rewrite Hfiles in Hne.
    - split; [| done]. intros _. right. eauto. }
  rewrite NormalSendHandler_unfold by (by rewrite Hfiles).
  destruct mkdir_err as [e |].
  { cbn. split; [| split; [| split]]; [| | done | by auto].
    - split; [done | by intros (? & _ & _ & ? & _)].
    - split; [done |]. intros [[? ?] | (f' & [= <-] & Hnil)]; [done |].
      by rewrite Hfiles in Hnil. }
  pose proof (save_parts_outcome (upload_dir f) (form_files f) fs) as Hout.
  rewrite Hfiles in *.
  destruct (save_parts (upload_dir f) (g :: files) fs)
    as [fs' [failure |]]; cbn [fst snd status] in *.
  - destruct Hout as [Hstatus Hnot]. rewrite Hstatus.
    split; [| split; [| split]]; [| | done | by auto].
    + split; [done |]. intros (f' & [= <-] & _ & _ & Hall).
      by rewrite Hfiles in Hall.
    + split; [done |]. intros [[? ?] | (f' & [= <-] & Hnil)]; [done |].
      by rewrite Hfiles in Hnil.
  - split; [| split; [| split]]; [| | done | by auto].
    + split; [| done]. intros _. exists f. by rewrite Hfiles.
    + split; [done |]. intros [[? ?] | (f' & [= <-] & Hnil)]; [done |].
      by rewrite Hfiles in Hnil.
Qed.

Lemma NormalSendHandler_saves_every_part_witness :
  (NormalSendHandler (inr album) None ∅).1 !! "uploads/album/b.jpg"
    = Some ["4"; "5"]%byte.
Proof.
  refine (proj1 (proj2 (NormalSendHandler_saves_every_part album ∅ _ _))
            [part_saved "a.jpg" ["1"; "2"; "3"]%byte]
            (part_saved "b.jpg" ["4"; "5"]%byte) [] _ _).
  - done.
  - repeat constructor.
  - reflexivity.
  - intros h Hh. by apply elem_of_nil in Hh.
Defined.

Lemma NormalSendHandler_keeps_what_it_saved_witness :
  status (NormalSendHandler (inr album_breaking) None ∅).2
    = Some StatusInternalServerError ∧
  (NormalSendHandler (inr album_breaking) None ∅).1 !! "uploads/album/a.jpg"
    = Some ["1"; "2"; "3"]%byte.
Proof.
  destruct (NormalSendHandler_keeps_what_it_saved album_breaking ∅
              [part_saved "a.jpg" ["1"; "2"; "3"]%byte]
              [part_saved "c.jpg" ["7"]%byte]
              (part_broken "b.jpg" ["4"; "5"; "6"]%byte))
    as (Hstatus & _ & Hkept).
  - reflexivity.
  - repeat constructor.
  - by intros (_ & _ & _ & ?).
  - split; [exact Hstatus |].
    apply (Hkept [] (part_saved "a.jpg" ["1"; "2"; "3"]%byte) []).
    + reflexivity.
    + intros k Hk. by apply elem_of_nil in Hk.
    + done.
Defined.

End NormalSendHandler_claims.

(** ** Suffixes and extensions of file names *)
Section suffix_facts.
Import Go Models Receive Send.

Lemma length_append (s t : string) :
  String.length (s +:+ t) = (String.length s + String.length t)%nat.
Proof.
  induction s as [| c s IH]; [done |].
  change (String c s +:+ t) with (String c (s +:+ t)). simpl. by rewrite IH.
Qed.

Lemma substring_whole (t : string) :
  String.substring 0 (String.length t) t = t.
Proof. induction t as [| c t IH]; [done |]. simpl. by rewrite IH. Qed.

Lemma substring_after (p t : string) n :
  String.substring (String.length p) n (p +:+ t) = String.substring 0 n t.
Proof.
  induction p as [| c p IH]; [done |].
  change (String c p +:+ t) with (String c (p +:+ t)). simpl. exact IH.
Qed.

Lemma substring_split n : ∀ s,
  (n <= String.length s)%nat ->
  s = String.substring 0 n s
      +:+ String.substring n (String.length s - n) s.
Proof.
  induction n as [| n IH]; intros s Hn.
  - rewrite Nat.sub_0_r, substring_whole. by destruct s.
  - destruct s as [| c s]; simpl in Hn; [lia |].
    simpl String.substring.
    change (String c (String.substring 0 n s) +:+ ?t)
      with (String c (String.substring 0 n s +:+ t)).
    f_equal. apply IH. lia.
Qed.

Lemma HasSuffix_iff (s suffix : string) :
  HasSuffix s suffix = true ↔ ∃ p, s = p +:+ suffix.
Proof.
  unfold HasSuffix. rewrite andb_true_iff, Nat.leb_le, String.eqb_eq. split.
  - intros [Hlen Hsub].
    exists (String.substring 0 (String.length s - String.length suffix) s).
    rewrite (substring_split (String.length s - String.length suffix) s)
      at 1 by lia.
    f_equal. rewrite <- Hsub at 3. f_equal. lia.
  - intros [p ->]. rewrite length_append. split; [lia |].
    replace (String.length p + String.length suffix - String.length suffix)%nat
      with (String.length p) by lia.
    by rewrite substring_after, substring_whole.
Qed.

Lemma scan_ext_spec (path : string) :
  match scan_ext path with
  | ExtFound e => ∃ p t, path = p +:+ e ∧ e = String "." t ∧ dotless t
  | ExtSeparator => True
  | ExtNone => dotless path
  end.
Proof.
  induction path as [| c rest IH]; simpl; [by constructor |].
  destruct (scan_ext rest) as [e | |].
  - destruct IH as (p & t & -> & -> & Ht).
    by exists (String c p), t.
  - done.
  - destruct (IsPathSeparator c) eqn:Hsep; [done |].
    destruct (is_dot c) eqn:Hdot.
    + apply Ascii.eqb_eq in Hdot as ->. by exists "", rest.
    + by constructor.
Qed.

End suffix_facts.

Section suffix_claims.
Import Go Models Receive Send.

(** X22: a manifest entry makes the handshake write the clipboard exactly
    when its file name ends in [.txt], that is, is some string followed by
    [.txt] (the name [.txt] itself included, names in capitals not); the
    payload written is the preview of the entry. *)
Theorem clipboard_written_iff_txt (acc : prepare_acc) (kv : string * FileInfo) :
  ((∃ p, FileName kv.2 = p +:+ ".txt") ->
     acc_clip (prepare_file acc kv) = acc_clip acc ++ [Preview kv.2]) ∧
  ((∀ p, FileName kv.2 ≠ p +:+ ".txt") ->
     acc_clip (prepare_file acc kv) = acc_clip acc).
Proof.
  cbn [prepare_file acc_clip]. unfold WriteToClipBoard. split.
  - intros H%HasSuffix_iff. by rewrite H.
  - intros H. destruct (HasSuffix (FileName kv.2) ".txt") eqn:Hs; [| done].
    apply HasSuffix_iff in Hs as [p Hp]. by destruct (H p).
Qed.

(** X23: the file type that the manifest builder records for a file is
    the extension of its path: empty, or the part of the path from the last
    dot of its last element on (a dot followed by characters that are
    neither dots nor separators). *)
Theorem manifest_file_type_is_extension
    (sha256 : string -> error + string) (files files' : gmap string FileInfo)
    (v : visit) :
  manifest_visit sha256 files v = (files', None) ->
  v_isDir v = false ->
  ∃ m, files' !! v_name v = Some m ∧ Size m = v_size v ∧
       (FileType m = "" ∨
        ∃ p t, v_path v = p +:+ FileType m ∧
               FileType m = String "." t ∧ dotless t).
Proof.
  intros Hv Hdir.
  apply manifest_visit_ok in Hv
    as [(_ & Hdir' & _) | (m & (_ & _ & h & _ & ->) & ->)]; [congruence |].
  eexists. split; [apply lookup_insert_eq |]. split; [done |].
  cbn [metadata FileType]. unfold Ext.
  pose proof (scan_ext_spec (v_path v)) as Hscan.
  destruct (scan_ext (v_path v)) as [e | |]; [right | by left | by left].
  exact Hscan.
Qed.

Lemma manifest_file_type_is_extension_witness :
  ∃ m, (<["a.tar.gz" := metadata
            {| v_path := "x.d/a.tar.gz"; v_name := "a.tar.gz";
               v_isDir := false; v_size := 9; v_err := None |} "00"]>
          (∅ : gmap string FileInfo)) !! "a.tar.gz" = Some m ∧
       Size m = 9 ∧
       (FileType m = "" ∨
        ∃ p t, "x.d/a.tar.gz" = p +:+ FileType m ∧
               FileType m = String "." t ∧ dotless t).
Proof.
  apply (manifest_file_type_is_extension (λ _, inr "00") ∅ _
           {| v_path := "x.d/a.tar.gz"; v_name := "a.tar.gz";
              v_isDir := false; v_size := 9; v_err := None |});
    reflexivity.
Defined.

End suffix_claims.

(** ** The send operation as a whole *)
Section SendFile_order_facts.
Import Go Models Send.

Lemma upload_walk_prefix net ip response vs : ∀ log log' r,
  Walk (upload_visit net ip response) vs log = (log', r) ->
  ∃ k, sent_path <$> log'
       = (sent_path <$> log) ++ take k (v_path <$> List.filter is_file vs).
Proof.
  induction vs as [| v vs IH]; intros log log' r Hwalk.
  - simpl in Hwalk. injection Hwalk as <- <-. exists 0%nat.
    by rewrite app_nil_r.
  - simpl in Hwalk.
    pose proof (upload_visit_log net ip response log v) as Hlog.
    destruct (upload_visit net ip response log v) as [log1 [e |]] eqn:Hv;
      cbn [fst snd] in Hlog.
    + injection Hwalk as <- <-.
      destruct Hlog as [[-> _] | [Hdir [url ->]]].
      * exists 0%nat. by rewrite app_nil_r.
      * exists 1%nat. cbn [List.filter]. unfold is_file at 1.
        rewrite Hdir. cbn [negb fmap list_fmap take].
        by rewrite fmap_app.
    + destruct (IH _ _ _ Hwalk) as [k Hk]. rewrite Hk.
      destruct Hlog as [[-> Hdir] | [Hdir [url ->]]].
      * exists k. cbn [List.filter]. unfold is_file at 2.
        by rewrite (Hdir eq_refl).
      * exists (S k). cbn [List.filter]. unfold is_file at 2.
        rewrite Hdir. cbn [negb]. rewrite fmap_app, fmap_cons.
        cbn [take]. by rewrite <- app_assoc.
Qed.

End SendFile_order_facts.

Section SendFile_order_claims.
Import Go Models Send.

(** X24: the handshake client returns a response exactly when the
    manifest could be built and encoded, the request was answered with
    status 200 and the body of the answer decoded; the response is the
    decoded one. *)
Theorem prepare_returns_response_iff
    (env : prepare_env) (dev : Info) (vs : list visit) (ip : string)
    (response : PrepareReceiveResponse) :
  (SendFileToOtherDevicePrepare env dev vs ip).1 = Some response ↔
  ∃ files r,
    build_manifest (sha256_of env) vs = inr files ∧
    marshal_err env = None ∧
    post env ("https://" +:+ ip +:+ ":53317/api/localsend/v2/prepare-upload")
         {| Req_Info := dev; Req_Files := map_to_list files |} = inr r ∧
    StatusCode r = 200 ∧ decoded r = inr response.
Proof.
  unfold SendFileToOtherDevicePrepare.
  destruct (build_manifest (sha256_of env) vs) as [e | files].
  { split; [done | by intros (? & ? & ? & _)]. }
  destruct (marshal_err env) as [e |].
  { split; [done | by intros (? & ? & _ & ? & _)]. }
  destruct (post env _ _) as [e | r] eqn:Hpost.
  { split; [done |]. intros (files' & r & [= <-] & _ & Hpost' & _).
    rewrite Hpost in Hpost'. done. }
  split.
  - intros Hresp. exists files, r. split; [done |]. split; [done |].
    split; [done |].
    destruct (decide (StatusCode r = 200)) as [H200 | Hnot].
    + split; [done |].
      unfold check_response in Hresp. rewrite H200 in Hresp.
      cbn in Hresp. destruct (decoded r); [done |]. by injection Hresp as ->.
    + rewrite check_response_not_ok in Hresp by done. done.
  - intros (files' & r' & [= <-] & _ & Hpost' & H200 & Hdec).
    rewrite Hpost in Hpost'. injection Hpost' as <-.
    unfold check_response. rewrite H200, Hdec. reflexivity.
Qed.

(** X25: no file is requested without a handshake: if [SendFile] has made
    any upload request, a device was chosen and the handshake with it
    returned a response without an error. *)
Theorem no_upload_without_handshake
    (env : send_env) (vs1 vs2 : list visit) :
  (SendFile env vs1 vs2).1 ≠ [] ->
  ∃ ip response,
    select_device env = inr ip ∧
    SendFileToOtherDevicePrepare (prepare env) (device env) vs1 ip
      = (Some response, None).
Proof.
  unfold SendFile. destruct (select_device env) as [e | ip]; [done |].
  destruct (SendFileToOtherDevicePrepare _ _ _ _)
    as [[response |] [e |]] eqn:Hprep;
    intros H; try (by destruct H).
  by exists ip, response.
Qed.

Lemma no_upload_without_handshake_witness :
  ∃ ip response,
    select_device calm_network = inr ip ∧
    SendFileToOtherDevicePrepare (prepare calm_network) (device calm_network)
        batch_walk_head ip
      = (Some response, None).
Proof.
  apply (no_upload_without_handshake calm_network batch_walk_head
           batch_walk_head).
  discriminate.
Defined.

(** X26: whatever happens, the upload requests of a send are for regular
    files of the walk, in the order of the walk, without a gap and without
    a repetition: the paths requested are an initial stretch of the paths
    of the regular files visited. *)
Theorem SendFile_requests_in_walk_order
    (env : send_env) (vs1 vs2 : list visit) :
  ∃ k, sent_path <$> (SendFile env vs1 vs2).1
       = take k (v_path <$> List.filter is_file vs2).
Proof.
  unfold SendFile.
  destruct (select_device env) as [e | ip]; [by exists 0%nat |].
  destruct (SendFileToOtherDevicePrepare _ _ _ _) as [[response |] [e |]];
    try by exists 0%nat.
  unfold upload_walk.
  destruct (Walk (upload_visit (network env) ip response) vs2 [])
    as [log r] eqn:Hwalk.
  destruct (upload_walk_prefix _ _ _ _ _ _ _ Hwalk) as [k Hk].
  exists k. by destruct r.
Qed.

End SendFile_order_claims.
